(** * Hele-Hale housing-data pipeline: a shallow embedding and its properties

    The three scripts of the repository are embedded as Rocq functions:

    - [scripts/fetch_housing_data.py]   (module [Fetch]),
    - [scripts/process_housing_data.py] (module [Process]),
    - [scripts/convert_to_csv.py]       (module [Csv]).

    Python values are dynamically typed, so the JSON documents the scripts
    read are embedded as one inductive type [json] and every Python operation
    that can raise is a function into [res], with the exception it raises.
    Strings are sequences of code points below 256 (the type [string] of the
    Standard Library, one [ascii] per code point); JSON numbers are Python
    integers, floating-point numbers are outside the embedding. *)

From Stdlib Require Import ZArith String Ascii List Bool Lia.
From stdpp Require Import base option list gmap strings countable.

Set Warnings "-register-all,-clear-no-such-hyp".
Local Open Scope string_scope.
Local Open Scope Z_scope.

(** ** Python values and exceptions *)

Module Py.

Inductive json : Type :=
| JNull
| JBool (b : bool)
| JInt (z : Z)
| JStr (s : string)
| JArr (l : list json)
| JObj (kvs : list (string * json)).

(** The exceptions the embedded code can raise. *)
Inductive pyexn : Type :=
| KeyError (key : string)
| TypeError
| AttributeError
| ValueError
| ZeroDivisionError
| FileNotFoundError
| JSONDecodeError.

Inductive res (A : Type) : Type :=
| Ok (a : A)
| Raise (e : pyexn).
Arguments Ok {A} a.
Arguments Raise {A} e.

Definition rbind {A B} (m : res A) (k : A -> res B) : res B :=
  match m with
  | Ok a => k a
  | Raise e => Raise e
  end.

Notation "'let*' x ':=' m 'in' k" := (rbind m (fun x => k))
  (at level 10, x name, m at level 100, k at level 200).

(** [d] as a Python dict: the first binding of a key is the dict's. *)
Fixpoint assoc (k : string) (kvs : list (string * json)) : option json :=
  match kvs with
  | [] => None
  | (k', v) :: rest => if String.eqb k k' then Some v else assoc k rest
  end.

(** [d.get(k, dflt)]; only a dict has the method. *)
Definition get (d : json) (k : string) (dflt : json) : res json :=
  match d with
  | JObj kvs => Ok (default dflt (assoc k kvs))
  | _ => Raise AttributeError
  end.

(** [d[k]] with a string key. *)
Definition subscript (d : json) (k : string) : res json :=
  match d with
  | JObj kvs =>
      match assoc k kvs with
      | Some v => Ok v
      | None => Raise (KeyError k)
      end
  | _ => Raise TypeError
  end.

(** [needle in hay] on strings: substring test. *)
Fixpoint is_prefix (p s : string) : bool :=
  match p, s with
  | EmptyString, _ => true
  | String a p', String b s' => Ascii.eqb a b && is_prefix p' s'
  | String _ _, EmptyString => false
  end.

Fixpoint is_substring (needle hay : string) : bool :=
  is_prefix needle hay ||
  match hay with
  | EmptyString => false
  | String _ hay' => is_substring needle hay'
  end.

(** [x == JStr k] for a JSON value [x]. *)
Definition eq_str (k : string) (x : json) : bool :=
  match x with
  | JStr s => String.eqb k s
  | _ => false
  end.

(** [k in d] with a string [k]. *)
Definition contains (k : string) (d : json) : res bool :=
  match d with
  | JObj kvs => Ok (bool_decide (is_Some (assoc k kvs)))
  | JStr s => Ok (is_substring k s)
  | JArr l => Ok (existsb (eq_str k) l)
  | _ => Raise TypeError
  end.

Fixpoint chars (s : string) : list json :=
  match s with
  | EmptyString => []
  | String a s' => JStr (String a EmptyString) :: chars s'
  end.

(** [for x in v]: the elements of a list, the keys of a dict, the characters
    of a string. *)
Definition iter (v : json) : res (list json) :=
  match v with
  | JArr l => Ok l
  | JObj kvs => Ok (map (fun kv => JStr (fst kv)) kvs)
  | JStr s => Ok (chars s)
  | _ => Raise TypeError
  end.

(** [bool(v)]. *)
Definition truthy (v : json) : bool :=
  match v with
  | JNull => false
  | JBool b => b
  | JInt z => negb (z =? 0)
  | JStr s => negb (String.eqb s "")
  | JArr l => negb (bool_decide (l = []))
  | JObj kvs => negb (bool_decide (kvs = []))
  end.

(** [len(v)]. *)
Definition len (v : json) : res Z :=
  match v with
  | JStr s => Ok (Z.of_nat (String.length s))
  | JArr l => Ok (Z.of_nat (length l))
  | JObj kvs => Ok (Z.of_nat (length kvs))
  | _ => Raise TypeError
  end.

(** *** Hashable values

    A tuple used as a dict key is hashed and compared by value: [True == 1],
    [None] equals itself only, strings by content; a list or a dict inside
    the tuple makes [hash] raise [TypeError]. [hkey] is the value a hashable
    JSON scalar has as a key. *)
Inductive hkey : Type :=
| HNone
| HNum (z : Z)
| HStr (s : string).

Definition hash (v : json) : res hkey :=
  match v with
  | JNull => Ok HNone
  | JBool b => Ok (HNum (if b then 1 else 0))
  | JInt z => Ok (HNum z)
  | JStr s => Ok (HStr s)
  | JArr _ | JObj _ => Raise TypeError
  end.

#[export] Instance hkey_eq_dec : EqDecision hkey.
Proof. solve_decision. Defined.

#[export] Instance hkey_countable : Countable hkey.
Proof.
  refine (inj_countable'
    (fun h => match h with
              | HNone => inl ()
              | HNum z => inr (inl z)
              | HStr s => inr (inr s)
              end)
    (fun x => match x with
              | inl _ => HNone
              | inr (inl z) => HNum z
              | inr (inr s) => HStr s
              end) _).
  by intros [].
Defined.

(** *** Decimal integers *)

Definition is_ascii_digit (c : ascii) : bool :=
  let n := nat_of_ascii c in (48 <=? n)%nat && (n <=? 57)%nat.

(** [c.isdigit()]: the decimal digits and, below code point 256, the
    superscripts U+00B2, U+00B3 and U+00B9. *)
Definition isdigit_char (c : ascii) : bool :=
  let n := nat_of_ascii c in
  is_ascii_digit c || (n =? 178)%nat || (n =? 179)%nat || (n =? 185)%nat.

Fixpoint all_chars (p : ascii -> bool) (s : string) : bool :=
  match s with
  | EmptyString => true
  | String a s' => p a && all_chars p s'
  end.

(** [s.isdigit()]: false on the empty string. *)
Definition isdigit (s : string) : bool :=
  negb (String.eqb s "") && all_chars isdigit_char s.

Definition digit_value (c : ascii) : Z := Z.of_nat (nat_of_ascii c) - 48.

Fixpoint int_digits (acc : Z) (s : string) : Z :=
  match s with
  | EmptyString => acc
  | String a s' => int_digits (10 * acc + digit_value a) s'
  end.

(** [int(s)] for a string [s] of [isdigit] characters (the only strings the
    code converts): the superscript digits are not decimal digits, and
    [int] raises [ValueError] on them. *)
Definition int (s : string) : res Z :=
  if negb (String.eqb s "") && all_chars is_ascii_digit s
  then Ok (int_digits 0 s)
  else Raise ValueError.

Fixpoint str_of_N_aux (fuel : nat) (n : N) (acc : string) : string :=
  match fuel with
  | O => acc
  | S fuel' =>
      let acc' := String (ascii_of_N (48 + n mod 10)%N) acc in
      if (n / 10 =? 0)%N then acc' else str_of_N_aux fuel' (n / 10)%N acc'
  end.

(** [str(z)], also what an f-string writes for an integer. *)
Definition str (z : Z) : string :=
  match z with
  | Z0 => "0"
  | Zpos p => str_of_N_aux (Pos.size_nat p) (Npos p) ""
  | Zneg p => String "-" (str_of_N_aux (Pos.size_nat p) (Npos p) "")
  end.

End Py.
Import Py.

(** ** Files

    An output file is the sequence of the chunks written to it, in order. The
    scripts write brackets, separators, line ends, one JSON object per
    [json.dump]/[json.dumps] call, and (the fetch script) comment lines. *)

Module Store.

(** What an error line says. [_write_error] writes ["// ERROR: "], the
    message and a line end. *)
Inductive annotation : Type :=
| RequestError (offset : Z) (e : string)
    (* f"Error making request at offset {offset}: {e}" *)
| ResponseText (text : string)
    (* f"Error response: {e.response.text}" *)
| FatalError (e : pyexn).
    (* f"Fatal error: {e}" *)

Inductive chunk : Type :=
| LBracket                                   (* [ *)
| RBracket                                   (* ] *)
| Comma                                      (* , *)
| Newline                                    (* \n *)
| Object (fields : list (string * json))    (* a serialized dict *)
| ErrorLine (a : annotation).                (* // ERROR: ...\n *)

(** A file on disk: absent, or its chunks. *)
Definition file : Type := option (list chunk).

(** What reading a JSON input file gives: [open] raises
    [FileNotFoundError], [json.load] raises [JSONDecodeError], or a value. *)
Inductive input_file : Type :=
| Missing
| Malformed
| Parsed (data : json).

Definition is_newline (c : chunk) : bool :=
  match c with
  | Newline => true
  | _ => false
  end.

(** The objects written at the top level of a file, in order. *)
Fixpoint records (f : list chunk) : list (list (string * json)) :=
  match f with
  | [] => []
  | Object fields :: f' => fields :: records f'
  | _ :: f' => records f'
  end.

(** [json.load] on the chunks of a file, white space removed: a value is an
    object or a bracketed, comma-separated sequence of values; a comment
    line is not JSON. [fuel] bounds the nesting and the length. *)
Fixpoint parse_value (fuel : nat) (ts : list chunk) : option (json * list chunk) :=
  match fuel with
  | O => None
  | S fuel' =>
      match ts with
      | Object fields :: rest => Some (JObj fields, rest)
      | LBracket :: RBracket :: rest => Some (JArr [], rest)
      | LBracket :: rest => parse_elements fuel' rest []
      | _ => None
      end
  end
with parse_elements (fuel : nat) (ts : list chunk) (acc : list json)
    : option (json * list chunk) :=
  match fuel with
  | O => None
  | S fuel' =>
      match parse_value fuel' ts with
      | Some (v, Comma :: rest) => parse_elements fuel' rest (acc ++ [v])
      | Some (v, RBracket :: rest) => Some (JArr (acc ++ [v]), rest)
      | _ => None
      end
  end.

(** [None] is [JSONDecodeError]: no value, or data after the value. *)
Definition json_load (f : list chunk) : option json :=
  let ts := List.filter (fun c => negb (is_newline c)) f in
  match parse_value (S (2 * length ts)) ts with
  | Some (v, []) => Some v
  | _ => None
  end.

End Store.
Import Store.

(** ** State and exceptions

    A computation that appends to a file can raise after it has written: the
    state it leaves is kept with the exception. *)

Module Eff.

Definition M (S A : Type) : Type := S -> res A * S.

Definition ret {S A} (a : A) : M S A := fun s => (Ok a, s).

Definition bind {S A B} (m : M S A) (k : A -> M S B) : M S B :=
  fun s =>
    match m s with
    | (Ok a, s') => k a s'
    | (Raise e, s') => (Raise e, s')
    end.

Definition lift {S A} (r : res A) : M S A := fun s => (r, s).

Definition modify {S} (f : S -> S) : M S unit := fun s => (Ok tt, f s).

Definition gets {S A} (f : S -> A) : M S A := fun s => (Ok (f s), s).

(** [for x in l: body(x)] *)
Fixpoint for_each {S A} (l : list A) (body : A -> M S unit) : M S unit :=
  match l with
  | [] => ret tt
  | x :: l' => bind (body x) (fun _ => for_each l' body)
  end.

End Eff.

Notation "'do' x '<-' m ';' k" := (Eff.bind m (fun x => k))
  (at level 10, x name, m at level 100, k at level 200).
Notation "m ';;' k" := (Eff.bind m (fun _ => k))
  (at level 100, k at level 200, right associativity).

(** ** [datetime.strptime(s, '%Y-%m-%dT%H:%M:%S%z')]

    The library compiles the format to a regular expression (CPython 3.12,
    [Lib/_strptime.py]), matches it at the start of the string with [re.match]
    (case-insensitive), rejects input left over, and builds the [datetime],
    which checks the calendar and the offset. The matcher below returns the
    matches of each directive in the order the regular-expression engine
    tries them; the first complete one is the engine's. *)

Module Strptime.

Definition parser (A : Type) : Type := list ascii -> list (A * list ascii).

Definition pure {A} (a : A) : parser A := fun s => [(a, s)].

Definition seq {A B} (p : parser A) (k : A -> parser B) : parser B :=
  fun s => flat_map (fun ar => k (fst ar) (snd ar)) (p s).

Definition alt {A} (p q : parser A) : parser A := fun s => (p s ++ q s)%list.

Definition sat (f : ascii -> bool) : parser ascii :=
  fun s =>
    match s with
    | c :: r => if f c then [(c, r)] else []
    | [] => []
    end.

(** A decimal digit whose value lies in [lo..hi]: the class [[lo-hi]]. *)
Definition digit (lo hi : Z) : parser Z :=
  seq (sat (fun c => is_ascii_digit c && (lo <=? digit_value c) && (digit_value c <=? hi)))
      (fun c => pure (digit_value c)).

Definition lit (c : ascii) : parser unit :=
  seq (sat (Ascii.eqb c)) (fun _ => pure tt).

(** Two digits [a][b] as the number they write. *)
Definition two (a b : parser Z) : parser Z :=
  seq a (fun x => seq b (fun y => pure (10 * x + y))).

(** [p?], greedy. *)
Definition opt {A} (p : parser A) : parser (option A) :=
  alt (seq p (fun a => pure (Some a))) (pure None).

(** [\d{0,n}], greedy. *)
Fixpoint digits_upto (n : nat) : parser unit :=
  match n with
  | O => pure tt
  | S n' => alt (seq (digit 0 9) (fun _ => digits_upto n')) (pure tt)
  end.

(** %Y: [\d\d\d\d] *)
Definition dir_Y : parser Z :=
  seq (two (digit 0 9) (digit 0 9)) (fun hi =>
  seq (two (digit 0 9) (digit 0 9)) (fun lo => pure (100 * hi + lo))).

(** %m: [1[0-2]|0[1-9]|[1-9]] *)
Definition dir_m : parser Z :=
  alt (two (digit 1 1) (digit 0 2)) (alt (two (digit 0 0) (digit 1 9)) (digit 1 9)).

(** %d: [3[0-1]|[1-2]\d|0[1-9]|[1-9]| [1-9]] *)
Definition dir_d : parser Z :=
  alt (two (digit 3 3) (digit 0 1))
 (alt (two (digit 1 2) (digit 0 9))
 (alt (two (digit 0 0) (digit 1 9))
 (alt (digit 1 9)
      (seq (lit " ") (fun _ => digit 1 9))))).

(** %H: [2[0-3]|[0-1]\d|\d] *)
Definition dir_H : parser Z :=
  alt (two (digit 2 2) (digit 0 3)) (alt (two (digit 0 1) (digit 0 9)) (digit 0 9)).

(** %M: [[0-5]\d|\d] *)
Definition dir_M : parser Z :=
  alt (two (digit 0 5) (digit 0 9)) (digit 0 9).

(** %S: [6[0-1]|[0-5]\d|\d] *)
Definition dir_S : parser Z :=
  alt (two (digit 6 6) (digit 0 1)) (alt (two (digit 0 5) (digit 0 9)) (digit 0 9)).

(** The text %z matched: ["Z"], or a sign, hours, minutes and optional
    seconds, with the colons that were written. *)
Record offset_text : Type := {
  negative : bool;
  hours : Z;
  colon1 : bool;
  minutes : Z;
  seconds : option (bool * Z)        (* (colon written, seconds) *)
}.

Definition is_some {A} (o : option A) : bool :=
  match o with
  | Some _ => true
  | None => false
  end.

(** %z: [[+-]\d\d:?[0-5]\d(:?[0-5]\d(\.\d{1,6})?)?|(?-i:Z)] *)
Definition dir_z : parser (option offset_text) :=
  alt
    (seq (alt (seq (lit "+") (fun _ => pure false)) (seq (lit "-") (fun _ => pure true))) (fun sg =>
     seq (two (digit 0 9) (digit 0 9)) (fun hh =>
     seq (opt (lit ":")) (fun c1 =>
     seq (two (digit 0 5) (digit 0 9)) (fun mm =>
     seq (opt (seq (opt (lit ":")) (fun c2 =>
               seq (two (digit 0 5) (digit 0 9)) (fun ss =>
               seq (opt (seq (lit ".") (fun _ =>
                         seq (digit 0 9) (fun _ => digits_upto 5)))) (fun _ =>
               pure (is_some c2, ss))))))
         (fun sec =>
     pure (Some {| negative := sg; hours := hh; colon1 := is_some c1;
                   minutes := mm; seconds := sec |})))))))
    (seq (lit "Z") (fun _ => pure None)).

Record fields : Type := {
  f_year : Z; f_month : Z; f_day : Z;
  f_hour : Z; f_minute : Z; f_second : Z;
  f_offset : option offset_text
}.

(** The whole format; the literal [T] matches either case. *)
Definition format : parser fields :=
  seq dir_Y (fun y => seq (lit "-") (fun _ =>
  seq dir_m (fun m => seq (lit "-") (fun _ =>
  seq dir_d (fun d => seq (alt (lit "T") (lit "t")) (fun _ =>
  seq dir_H (fun h => seq (lit ":") (fun _ =>
  seq dir_M (fun mi => seq (lit ":") (fun _ =>
  seq dir_S (fun s =>
  seq dir_z (fun z =>
  pure {| f_year := y; f_month := m; f_day := d; f_hour := h;
          f_minute := mi; f_second := s; f_offset := z |})))))))))))).

Definition is_leap (y : Z) : bool :=
  ((y mod 4 =? 0) && negb (y mod 100 =? 0)) || (y mod 400 =? 0).

Definition days_in_month (y m : Z) : Z :=
  if m =? 2 then (if is_leap y then 29 else 28)
  else if (m =? 4) || (m =? 6) || (m =? 9) || (m =? 11) then 30
  else 31.

(** The offset in seconds, as [_strptime] computes it from the text: the
    colons must be used consistently, and [timezone] wants less than a day. *)
Definition utcoffset (z : option offset_text) : res Z :=
  match z with
  | None => Ok 0
  | Some t =>
      let consistent :=
        match seconds t with
        | Some (c2, _) => Bool.eqb (colon1 t) c2
        | None => true
        end in
      let secs := match seconds t with Some (_, ss) => ss | None => 0 end in
      if consistent && (hours t <? 24)
      then Ok ((if negative t then -1 else 1) * (hours t * 3600 + minutes t * 60 + secs))
      else Raise ValueError
  end.

Record datetime : Type := {
  year : Z; month : Z; day : Z;
  hour : Z; minute : Z; second : Z;
  tzoffset : Z
}.

Definition strptime (s : string) : res datetime :=
  match format (list_ascii_of_string s) with
  | (f, []) :: _ =>
      if (1 <=? f_year f) && (f_day f <=? days_in_month (f_year f) (f_month f))
         && (f_second f <=? 59)
      then
        let* off := utcoffset (f_offset f) in
        Ok {| year := f_year f; month := f_month f; day := f_day f;
              hour := f_hour f; minute := f_minute f; second := f_second f;
              tzoffset := off |}
      else Raise ValueError
  | _ => Raise ValueError
  end.

End Strptime.

(** ** scripts/fetch_housing_data.py *)

Module Fetch.
Import Eff.

(** The client: whether it has an output file, the file's chunks, and the
    requests posted so far as (offset, limit). *)
Record state : Type := {
  out : list chunk;
  requests : list (Z * Z)
}.

Definition append (cs : list chunk) : M state unit :=
  modify (fun st => {| out := (out st ++ cs)%list; requests := requests st |}).

Definition record_request (offset limit : Z) : M state unit :=
  modify (fun st => {| out := out st;
                       requests := (requests st ++ [(offset, limit)])%list |}).

(** [APIClient.__init__]: the output file is opened for writing, which
    empties it, and the opening bracket is written. *)
Definition init (output_file : bool) : state :=
  {| out := if output_file then [LBracket; Newline] else []; requests := [] |}.

Definition _write_to_file (output_file : bool) (message : list (string * json))
    (is_last : bool) : M state unit :=
  if output_file
  then append (Object message :: (if is_last then [Newline] else [Comma; Newline]))
  else ret tt.                                  (* print(message) *)

Definition _write_error (output_file : bool) (a : annotation) : M state unit :=
  if output_file then append [ErrorLine a] else ret tt.

(** [x >= 200000] for a JSON value [x]. *)
Definition ge_int (x : json) (n : Z) : res bool :=
  match x with
  | JInt z => Ok (n <=? z)
  | JBool b => Ok (n <=? (if b then 1 else 0))
  | _ => Raise TypeError
  end.

(** [datetime.strptime(x, fmt)] for a JSON value [x]. *)
Definition strptime (x : json) : res Strptime.datetime :=
  match x with
  | JStr s => Strptime.strptime s
  | _ => Raise TypeError
  end.

(** [all(key in transfer['Grantor'] for key in keys)] *)
Fixpoint all_keys_present (transfer : json) (keys : list string) : res bool :=
  match keys with
  | [] => Ok true
  | key :: keys' =>
      let* grantor := subscript transfer "Grantor" in
      let* present := contains key grantor in
      if present then all_keys_present transfer keys' else Ok false
  end.

(** The body of the [try]: the condition under which the transfer is kept. *)
Definition meets_criteria (transfer : json) : res bool :=
  let* grantor := subscript transfer "Grantor" in
  let* date := subscript grantor "Date" in
  let* transfer_date := strptime date in
  if negb (Strptime.year transfer_date =? 2024) then Ok false else
  let* grantor := subscript transfer "Grantor" in
  let* price := subscript grantor "Price" in
  let* enough := ge_int price 200000 in
  if negb enough then Ok false else
  let* grantor := subscript transfer "Grantor" in
  let* instrument := subscript grantor "InstrumentType" in
  if negb (eq_str "DEED" instrument) then Ok false else
  let* grantor := subscript transfer "Grantor" in
  let* link := subscript grantor "BureauOfConveyancesLink" in
  Ok (truthy link).

(** One round of the loop over the transfers: whether [transfer] is
    appended to [filtered_transfers]. [ValueError] and [TypeError] raised in
    the [try] skip the transfer; anything else propagates. *)
Definition keep_transfer (transfer : json) : res bool :=
  let* present := all_keys_present transfer
      ["Date"; "Price"; "InstrumentType"; "BureauOfConveyancesLink"] in
  if present then
    match meets_criteria transfer with
    | Ok b => Ok b
    | Raise ValueError | Raise TypeError => Ok false
    | Raise e => Raise e
    end
  else Ok false.

Fixpoint filter_transfers (transfers : list json) : res (list json) :=
  match transfers with
  | [] => Ok []
  | transfer :: rest =>
      let* keep := keep_transfer transfer in
      let* filtered := filter_transfers rest in
      Ok (if keep then transfer :: filtered else filtered)
  end.

Definition _extract_taxmapkey_fields (taxmapkey : json) : res (list (string * json)) :=
  let* parcel_number := get taxmapkey "ParcelNumber" JNull in
  let* last_sale_date := get taxmapkey "LastSaleDate" JNull in
  let* last_sale_price := get taxmapkey "LastSalePrice" JNull in
  let* last_sale_instrument := get taxmapkey "LastSaleInstrument" JNull in
  let result :=
    [("ParcelNumber", parcel_number); ("LastSaleDate", last_sale_date);
     ("LastSalePrice", last_sale_price);
     ("LastSaleInstrument", last_sale_instrument)] in
  let* has_transfers := contains "Transfers" taxmapkey in
  if has_transfers then
    let* transfers_value := subscript taxmapkey "Transfers" in
    let* transfers := iter transfers_value in
    let* filtered_transfers := filter_transfers transfers in
    Ok (result ++ [("Transfers", JArr filtered_transfers)])%list
  else Ok result.

(** What [requests.post(...)], [raise_for_status()] and [response.json()]
    give for one batch: a [RequestException] with its text and, when it
    carries a response, the response's text; or the decoded body. *)
Inductive response : Type :=
| Failed (e : string) (response_text : option string)
| Payload (response_data : json).

Fixpoint collect (items : list json) : res (list (list (string * json))) :=
  match items with
  | [] => Ok []
  | item :: rest =>
      let* has_key := contains "TaxMapKey" item in
      if has_key then
        let* taxmapkey := subscript item "TaxMapKey" in
        let* taxmapkey_info := _extract_taxmapkey_fields taxmapkey in
        let* batch_results := collect rest in
        Ok (taxmapkey_info :: batch_results)
      else collect rest
  end.

(** The loop that writes a batch; [j] counts the results written. *)
Fixpoint write_batch (output_file last_request : bool) (j len : Z)
    (batch_results : list (list (string * json))) : M state unit :=
  match batch_results with
  | [] => ret tt
  | result :: rest =>
      let is_last := last_request && (j =? len - 1) in
      _write_to_file output_file result is_last ;;
      write_batch output_file last_request (j + 1) len rest
  end.

(** [a // b] *)
Definition floordiv (a b : Z) : res Z :=
  if b =? 0 then Raise ZeroDivisionError else Ok (a / b).

(** One round of the loop over the batches. *)
Definition fetch_batch (output_file : bool) (post : Z -> Z -> response)
    (start_index end_index batch_size num_requests i : Z) : M state unit :=
  let offset := start_index + i * batch_size in
  let limit := Z.min batch_size (end_index - offset) in
  record_request offset limit ;;
  match post offset limit with
  | Payload response_data =>
      do has_data <- lift (contains "data" response_data);
      if has_data then
        do data <- lift (subscript response_data "data");
        do items <- lift (iter data);
        do batch_results <- lift (collect items);
        write_batch output_file (i =? num_requests - 1) 0
          (Z.of_nat (length batch_results)) batch_results
      else ret tt
  | Failed e response_text =>
      _write_error output_file (RequestError offset e) ;;
      match response_text with
      | Some text => _write_error output_file (ResponseText text)
      | None => ret tt
      end
  end.

Definition fetch_results (output_file : bool) (post : Z -> Z -> response)
    (start_index end_index batch_size : Z) : M state unit :=
  let total_results := end_index - start_index in
  do num_requests <- lift (floordiv (total_results + batch_size - 1) batch_size);
  for_each (seqZ 0 num_requests)
    (fetch_batch output_file post start_index end_index batch_size num_requests) ;;
  if output_file then append [RBracket; Newline] else ret tt.

(** The two ranges [main] fetches, and the handler around them. *)
Definition fetch_both (post1 post2 : Z -> Z -> response)
    (total1 total2 batch_size : Z) : state :=
  match (fetch_results true post1 0 total1 batch_size ;;
         fetch_results true post2 0 total2 batch_size) (init true) with
  | (Ok _, st) => st
  | (Raise e, st) =>
      snd ((_write_error true (FatalError e) ;; append [RBracket; Newline]) st)
  end.

Definition main (post1 post2 : Z -> Z -> response) : state :=
  fetch_both post1 post2 7967 8512 1000.

End Fetch.

(** ** scripts/process_housing_data.py *)

Module Process.
Import Eff.

Definition convert_to_tmk_format (parcel_number : json) : res json :=
  let* n := len parcel_number in
  if negb (n =? 13) then Ok parcel_number else
  match parcel_number with
  | JStr s =>
      if negb (isdigit s) then Ok parcel_number else
      let zone := substring 0 1 s in
      let* sec := int (substring 1 1 s) in
      let* plat := int (substring 2 1 s) in
      let* parcel := int (substring 3 3 s) in
      let* lot := int (substring 6 3 s) in
      let* cpr := int (substring 9 4 s) in
      let tmk := zone +:+ "-" +:+ str sec +:+ "-" +:+ str plat +:+ "-"
                 +:+ str parcel +:+ "-" +:+ str lot in
      Ok (JStr (if negb (cpr =? 0) then tmk +:+ "-" +:+ str cpr else tmk))
  | _ => Raise AttributeError                  (* no method isdigit *)
  end.

(** The tuple (ParcelNumber, Date, Price, BureauOfConveyancesLink) as a dict
    key. *)
Abbreviation RecordKey := (hkey * hkey * hkey * hkey)%type.

Definition hash_key (parcel_number date price link : json) : res RecordKey :=
  let* h1 := hash parcel_number in
  let* h2 := hash date in
  let* h3 := hash price in
  let* h4 := hash link in
  Ok (h1, h2, h3, h4).

(** The run: the output file's chunks, the two dicts, the separator flag,
    and the document references handed to [extract_conveyance_tax] so far. *)
Record state : Type := {
  out : list chunk;
  existing_transfers : gmap RecordKey json;
  new_transfers : gmap RecordKey json;
  first_item : bool;
  calls : list json
}.

Definition append (cs : list chunk) : M state unit :=
  modify (fun st =>
    {| out := (out st ++ cs)%list; existing_transfers := existing_transfers st;
       new_transfers := new_transfers st; first_item := first_item st;
       calls := calls st |}).

Definition set_out (cs : list chunk) : M state unit :=
  modify (fun st =>
    {| out := cs; existing_transfers := existing_transfers st;
       new_transfers := new_transfers st; first_item := first_item st;
       calls := calls st |}).

Definition set_existing (key : RecordKey) (item : json) : M state unit :=
  modify (fun st =>
    {| out := out st; existing_transfers := <[key := item]> (existing_transfers st);
       new_transfers := new_transfers st; first_item := first_item st;
       calls := calls st |}).

Definition set_new (key : RecordKey) (item : json) : M state unit :=
  modify (fun st =>
    {| out := out st; existing_transfers := existing_transfers st;
       new_transfers := <[key := item]> (new_transfers st);
       first_item := first_item st; calls := calls st |}).

Definition set_first_item (b : bool) : M state unit :=
  modify (fun st =>
    {| out := out st; existing_transfers := existing_transfers st;
       new_transfers := new_transfers st; first_item := b; calls := calls st |}).

Definition record_call (pdf_url : json) : M state unit :=
  modify (fun st =>
    {| out := out st; existing_transfers := existing_transfers st;
       new_transfers := new_transfers st; first_item := first_item st;
       calls := (calls st ++ [pdf_url])%list |}).

(** The key of a record of the output file. *)
Definition item_key (item : json) : res RecordKey :=
  let* parcel_number := get item "ParcelNumber" JNull in
  let* date := get item "Date" JNull in
  let* price := get item "Price" JNull in
  let* link := get item "BureauOfConveyancesLink" JNull in
  hash_key parcel_number date price link.

(** The inner [try]: an absent or unreadable output file is started anew
    with an opening bracket; a readable one is indexed by key. *)
Definition load_existing (output : file) : M state unit :=
  match output ≫= json_load with
  | Some existing_data =>
      do items <- lift (iter existing_data);
      for_each items (fun item =>
        do transfer_key <- lift (item_key item);
        set_existing transfer_key item)
  | None => set_out [LBracket; Newline]
  end.

Definition read_input (input : input_file) : M state json :=
  match input with
  | Missing => lift (Raise FileNotFoundError)
  | Malformed => lift (Raise JSONDecodeError)
  | Parsed data => ret data
  end.

Section WithExtractor.

(** [extract_conveyance_tax]: it downloads and reads a document, and
    returns a string whatever happens (it catches every exception). The
    answer to the [n]-th call of a run is [extract_conveyance_tax n pdf_url]. *)
Variable extract_conveyance_tax : nat -> json -> string.

Definition process_transfer (parcel_number tmk transfer : json) : M state unit :=
  do grantor <- lift (get transfer "Grantor" (JObj []));
  do date <- lift (get grantor "Date" JNull);
  do price <- lift (get grantor "Price" JNull);
  do link <- lift (get grantor "BureauOfConveyancesLink" JNull);
  do transfer_key <- lift (hash_key parcel_number date price link);
  do existing <- gets existing_transfers;
  if bool_decide (is_Some (existing !! transfer_key)) then ret tt else
  do new <- gets new_transfers;
  if bool_decide (is_Some (new !! transfer_key)) then ret tt else
  let pdf_url := link in
  do conveyance_tax <-
    (if truthy pdf_url then
       do n <- gets (fun st => length (calls st));
       record_call pdf_url ;;
       ret (extract_conveyance_tax n pdf_url)
     else ret "ERROR");
  let transfer_data :=
    [("ParcelNumber", parcel_number); ("TMK", tmk); ("Date", date);
     ("Price", price); ("BureauOfConveyancesLink", pdf_url);
     ("ConveyanceTax", JStr conveyance_tax)] in
  set_new transfer_key (JObj transfer_data) ;;
  do first <- gets first_item;
  append ((if first then [] else [Comma; Newline]) ++ [Object transfer_data])%list ;;
  set_first_item false.

Definition process_taxmapkey (taxmapkey : json) : M state unit :=
  do parcel_number <- lift (get taxmapkey "ParcelNumber" JNull);
  do tmk <- lift (convert_to_tmk_format parcel_number);
  do transfers_value <- lift (get taxmapkey "Transfers" (JArr []));
  do transfers <- lift (iter transfers_value);
  for_each transfers (process_transfer parcel_number tmk).

(** The body of the outer [try]. *)
Definition body (input : input_file) (output : file) : M state unit :=
  load_existing output ;;
  do data <- read_input input;
  do existing <- gets existing_transfers;
  set_first_item (bool_decide (size existing = 0%nat)) ;;
  do taxmapkeys <- lift (iter data);
  for_each taxmapkeys process_taxmapkey ;;
  append [Newline; RBracket].

(** Before the run the output file is [output]; after it, it is [out] of
    the state returned. A [JSONDecodeError] of the input is reported only;
    any other exception closes the array. *)
Definition process_housing_data (input : input_file) (output : file) : state :=
  let st0 := {| out := default [] output; existing_transfers := ∅;
                new_transfers := ∅; first_item := true; calls := [] |} in
  match body input output st0 with
  | (Ok _, st) => st
  | (Raise JSONDecodeError, st) => st
  | (Raise _, st) => snd (append [Newline; RBracket] st)
  end.

End WithExtractor.

(** Successive runs against the same output file, each with its own input
    and its own answers from the documents. *)
Fixpoint runs (rs : list ((nat -> json -> string) * input_file)) (output : file) : file :=
  match rs with
  | [] => output
  | (extract_conveyance_tax, input) :: rs' =>
      runs rs' (Some (out (process_housing_data extract_conveyance_tax input output)))
  end.

End Process.

(** ** scripts/convert_to_csv.py *)

Module Csv.

(** [s.replace(',', '')] *)
Fixpoint remove_commas (s : string) : string :=
  match s with
  | EmptyString => EmptyString
  | String c s' =>
      if Ascii.eqb c "," then remove_commas s' else String c (remove_commas s')
  end.

(** *** [float(s)] as a test: which strings it accepts

    White space around the literal is dropped (the ASCII white space and,
    above code point 127, U+0085 and U+00A0); an underscore must stand
    between two digits; what remains is a decimal literal with an optional
    sign, fraction and exponent, or a spelling of infinity or NaN. *)

Definition is_space (c : ascii) : bool :=
  let n := nat_of_ascii c in
  ((9 <=? n)%nat && (n <=? 13)%nat) || (n =? 32)%nat || (n =? 133)%nat || (n =? 160)%nat.

Fixpoint lstrip (l : list ascii) : list ascii :=
  match l with
  | c :: r => if is_space c then lstrip r else l
  | [] => []
  end.

Definition strip (l : list ascii) : list ascii := rev (lstrip (rev (lstrip l))).

Definition is_underscore (c : ascii) : bool := Ascii.eqb c "_".

(** Every underscore follows a digit and precedes a digit; [prev] tells
    whether the previous character was a digit, [after] whether it was an
    underscore. *)
Fixpoint underscores_ok (prev_digit after_underscore : bool) (l : list ascii) : bool :=
  match l with
  | [] => negb after_underscore
  | c :: r =>
      if is_underscore c then prev_digit && underscores_ok false true r
      else (negb after_underscore || is_ascii_digit c)
           && underscores_ok (is_ascii_digit c) false r
  end.

Definition drop_sign (l : list ascii) : list ascii :=
  match l with
  | c :: r => if Ascii.eqb c "+" || Ascii.eqb c "-" then r else l
  | [] => []
  end.

(** The leading digits of [l]: how many, and what follows them. *)
Fixpoint span_digits (l : list ascii) : nat * list ascii :=
  match l with
  | c :: r =>
      if is_ascii_digit c
      then let nr := span_digits r in (S (fst nr), snd nr)
      else (O, l)
  | [] => (O, [])
  end.

Definition is_exponent_mark (c : ascii) : bool := Ascii.eqb c "e" || Ascii.eqb c "E".

(** [sign? (digits (. digits?)? | . digits) ([eE] sign? digits)?] *)
Definition decimal_literal (l : list ascii) : bool :=
  let l1 := drop_sign l in
  let int_part := span_digits l1 in
  let frac_part :=
    match snd int_part with
    | c :: r => if Ascii.eqb c "." then span_digits r else (O, snd int_part)
    | [] => (O, [])
    end in
  negb (fst int_part + fst frac_part =? 0)%nat &&
  match snd frac_part with
  | [] => true
  | c :: r =>
      is_exponent_mark c &&
      (let e := span_digits (drop_sign r) in
       negb (fst e =? 0)%nat && bool_decide (snd e = []))
  end.

Definition lower (c : ascii) : ascii :=
  let n := nat_of_ascii c in
  if (65 <=? n)%nat && (n <=? 90)%nat then ascii_of_nat (n + 32) else c.

(** [sign? (inf | infinity | nan)], in any case. *)
Definition inf_or_nan (l : list ascii) : bool :=
  let w := string_of_list_ascii (map lower (drop_sign l)) in
  String.eqb w "inf" || String.eqb w "infinity" || String.eqb w "nan".

(** [float(s)] returns ([true]) or raises [ValueError] ([false]). *)
Definition float_ok (s : string) : bool :=
  let l := strip (list_ascii_of_string s) in
  underscores_ok false false l &&
  (let l' := List.filter (fun c => negb (is_underscore c)) l in
   decimal_literal l' || inf_or_nan l').

(** The [ConveyanceTax] cell of a row: lines 37 to 46. A value that is not
    a string has no [replace] ([AttributeError]); a string that [float]
    rejects raises [ValueError]. *)
Definition clean_conveyance_tax (conveyance_tax : json) : string :=
  if negb (eq_str "ERROR" conveyance_tax || eq_str "Not found" conveyance_tax) then
    match conveyance_tax with
    | JStr s =>
        let s' := remove_commas s in
        if float_ok s' then s' else "ERROR"
    | _ => "ERROR"
    end
  else "ERROR".

(** A row is the list of values handed to [writer.writerow]. *)
Definition header : list json :=
  [JStr "ParcelNumber"; JStr "Date"; JStr "Price"; JStr "ConveyanceTax"].

Definition row (item : json) : res (list json) :=
  let* conveyance_tax := get item "ConveyanceTax" (JStr "") in
  let cleaned := clean_conveyance_tax conveyance_tax in
  let* parcel_number := get item "ParcelNumber" (JStr "") in
  let* date := get item "Date" (JStr "") in
  let* price := get item "Price" (JStr "") in
  Ok [parcel_number; date; price; JStr cleaned].

(** The rows written for [items], and whether the loop raised. *)
Fixpoint rows (items : list json) : list (list json) * bool :=
  match items with
  | [] => ([], false)
  | item :: rest =>
      match row item with
      | Ok r => let rs := rows rest in (r :: fst rs, snd rs)
      | Raise _ => ([], true)
      end
  end.

(** The rows of the output file, or [None] when the input could not be read
    and the output file was never opened. An exception in the loop leaves
    the rows written before it. *)
Definition convert_to_csv (input : input_file) : option (list (list json)) :=
  match input with
  | Missing | Malformed => None
  | Parsed data =>
      match iter data with
      | Ok items => Some (header :: fst (rows items))
      | Raise _ => Some [header]
      end
  end.

End Csv.

(** ** The tax extractor: lines 33 to 57 of process_housing_data.py

    The download, the rasterization and the text recognition are the
    world's; what they give is a [reading]: an exception with its text, or
    the text recognized on the first page. The rest of the function is the
    regular expression [Conveyance Tax:\s*\$?\s*(G)], whose group [G] is
    [[\d,]+\.?\d*], searched with [re.search]. *)

Module Extractor.

Inductive reading : Type :=
| Unreadable (e : string)
| Text (text : string).

(** [\s] on a [str]: the white space below code point 256. *)
Definition is_whitespace (c : ascii) : bool :=
  let n := nat_of_ascii c in
  ((9 <=? n)%nat && (n <=? 13)%nat) || ((28 <=? n)%nat && (n <=? 32)%nat)
  || (n =? 133)%nat || (n =? 160)%nat.

(** [\s*], greedy. *)
Fixpoint skip_spaces (l : list ascii) : list ascii :=
  match l with
  | c :: r => if is_whitespace c then skip_spaces r else l
  | [] => []
  end.

(** [\$?], greedy. *)
Definition skip_dollar (l : list ascii) : list ascii :=
  match l with
  | c :: r => if Ascii.eqb c "$" then r else l
  | [] => []
  end.

Definition is_digit_or_comma (c : ascii) : bool :=
  is_ascii_digit c || Ascii.eqb c ",".

(** The longest prefix of [l] whose characters satisfy [p], and the rest. *)
Fixpoint span (p : ascii -> bool) (l : list ascii) : list ascii * list ascii :=
  match l with
  | c :: r =>
      if p c then let ar := span p r in (c :: fst ar, snd ar) else ([], l)
  | [] => ([], [])
  end.

(** The group [[\d,]+\.?\d*] at the start of [l]: nothing follows it in
    the expression, so each part takes all it can. *)
Definition group (l : list ascii) : option (list ascii) :=
  let head := span is_digit_or_comma l in
  match fst head with
  | [] => None
  | _ =>
      match snd head with
      | c :: r =>
          if Ascii.eqb c "."
          then Some (fst head ++ c :: fst (span is_ascii_digit r))%list
          else Some (fst head)
      | [] => Some (fst head)
      end
  end.

(** The literal [p] at the start of [l]: what follows it. *)
Fixpoint after_literal (p l : list ascii) : option (list ascii) :=
  match p, l with
  | [], _ => Some l
  | a :: p', b :: l' => if Ascii.eqb a b then after_literal p' l' else None
  | _ :: _, [] => None
  end.

(** The expression matched at the start of [l]: the group. Giving white
    space or the dollar sign back cannot turn a failure into a match. *)
Definition match_here (l : list ascii) : option (list ascii) :=
  match after_literal (list_ascii_of_string "Conveyance Tax:") l with
  | Some r => group (skip_spaces (skip_dollar (skip_spaces r)))
  | None => None
  end.

(** [re.search]: the match at the leftmost position that has one. *)
Fixpoint search (l : list ascii) : option (list ascii) :=
  match match_here l with
  | Some g => Some g
  | None =>
      match l with
      | [] => None
      | _ :: l' => search l'
      end
  end.

Definition extract_conveyance_tax (r : reading) : string :=
  match r with
  | Text text =>
      match search (list_ascii_of_string text) with
      | Some g => string_of_list_ascii g
      | None => "Not found"
      end
  | Unreadable e => "Error accessing PDF: " +:+ e
  end.

End Extractor.

(** ** The client's address and headers: [APIClient.__init__] and the URL
    of [fetch_results] *)

Module Client.

(** [s.lstrip('/')] on the characters of [s]. *)
Fixpoint lstrip_slash (l : list ascii) : list ascii :=
  match l with
  | c :: r => if Ascii.eqb c "/" then lstrip_slash r else l
  | [] => []
  end.

(** [s.rstrip('/')] *)
Definition rstrip_slash (l : list ascii) : list ascii :=
  rev (lstrip_slash (rev l)).

(** [self.base_url] *)
Definition base_url (base_url : string) : string :=
  string_of_list_ascii (rstrip_slash (list_ascii_of_string base_url)).

(** The Authorization header: the token, with the scheme put before it
    unless it starts with it. *)
Definition auth_header (bearer_token : string) : string :=
  if is_prefix "Bearer " bearer_token then bearer_token
  else "Bearer " +:+ bearer_token.

Definition headers (bearer_token : string) : list (string * string) :=
  [("Authorization", auth_header bearer_token);
   ("Content-Type", "application/json")].

(** f"{self.base_url}/{endpoint.lstrip('/')}", for a client made with
    [base]. *)
Definition url (base endpoint : string) : string :=
  base_url base +:+ "/" +:+
  string_of_list_ascii (lstrip_slash (list_ascii_of_string endpoint)).

(** The body of a request. *)
Definition request_data (offset limit : Z) (query : string) : json :=
  JObj [("offset", JInt offset); ("limit", JInt limit);
        ("query", JStr query); ("search", JStr "")].

End Client.

(** ** Timestamps

    Two descriptions of the text of a date, each read from left to right: a
    reader gives what it read and the text that follows it. *)

Module Timestamp.

Definition reader (A : Type) : Type := list ascii -> option (A * list ascii).

Definition give {A} (a : A) : reader A := fun l => Some (a, l).

Definition and_then {A B} (r : reader A) (k : A -> reader B) : reader B := fun l =>
  match r l with
  | Some (a, rest) => k a rest
  | None => None
  end.

Notation "'read' x '<-' r ';' k" := (and_then r (fun x => k))
  (at level 10, x name, r at level 100, k at level 200).

(** Nothing is read; the reading goes on when [b] holds. *)
Definition check (b : bool) : reader unit := fun l =>
  if b then Some (tt, l) else None.

(** What [r1] reads, or else what [r2] reads. *)
Definition either {A} (r1 r2 : reader A) : reader A := fun l =>
  match r1 l with
  | Some found => Some found
  | None => r2 l
  end.

(** What [r] reads when it reads something, nothing otherwise. *)
Definition optional {A} (r : reader A) : reader (option A) := fun l =>
  match r l with
  | Some (a, rest) => Some (Some a, rest)
  | None => Some (None, l)
  end.

(** The character [c]. *)
Definition the_char (c : ascii) : reader unit := fun l =>
  match l with
  | c' :: rest => if Ascii.eqb c c' then Some (tt, rest) else None
  | [] => None
  end.

(** The character [c] when it is written; whether it is. *)
Definition maybe_char (c : ascii) : reader bool :=
  read found <- optional (the_char c);
  give (match found with Some _ => true | None => false end).

(** One decimal digit and its value. *)
Definition one_digit : reader Z := fun l =>
  match l with
  | c :: rest => if is_ascii_digit c then Some (digit_value c, rest) else None
  | [] => None
  end.

(** Exactly two decimal digits and the number they write. *)
Definition two_digits : reader Z :=
  read a <- one_digit;
  read b <- one_digit;
  give (10 * a + b).

(** One or two decimal digits, two when two are written, and the number
    they write. *)
Definition one_or_two_digits : reader Z := either two_digits one_digit.

(** A number of one or two digits between [lo] and [hi]. *)
Definition number (lo hi : Z) : reader Z :=
  read v <- one_or_two_digits;
  read _ <- check ((lo <=? v) && (v <=? hi));
  give v.

(** The year: four digits. *)
Definition year_digits : reader Z :=
  read hi <- two_digits;
  read lo <- two_digits;
  give (100 * hi + lo).

(** *** The format '%Y-%m-%dT%H:%M:%S%z'

    The strings [datetime.strptime] reads under the format of the filter,
    field by field: a year of four digits; the month, the day, the hour,
    the minute and the second, each written with one or two digits; the
    letter T in either case; and the offset. No fraction of the second is
    read. *)

(** The day: a number from 1 to 31, or a space and a digit from 1 to 9. *)
Definition day_number : reader Z :=
  either (number 1 31)
         (read _ <- the_char " ";
          read d <- one_digit;
          read _ <- check (1 <=? d);
          give d).

(** The letter T, in either case. *)
Definition letter_T : reader unit := either (the_char "T") (the_char "t").

(** At most [n] decimal digits, as many as are written. *)
Fixpoint at_most_digits (n : nat) : reader unit := fun l =>
  match n, l with
  | S n', c :: rest => if is_ascii_digit c then at_most_digits n' rest else Some (tt, l)
  | _, _ => Some (tt, l)
  end.

(** A point and one to six digits. *)
Definition fraction : reader unit :=
  read _ <- the_char ".";
  read _ <- one_digit;
  at_most_digits 5.

(** The seconds of an offset: two digits up to 59, after a colon or not
    (which of the two is returned), and an optional fraction. *)
Definition offset_seconds : reader bool :=
  read colon <- maybe_char ":";
  read s <- two_digits;
  read _ <- check (s <=? 59);
  read _ <- optional fraction;
  give colon.

(** The offset: the letter Z; or a sign, two digits of hours below 24, two
    digits of minutes up to 59 after an optional colon, and optional
    seconds, written after a colon exactly when the minutes are. *)
Definition offset : reader unit :=
  either (the_char "Z")
         (read _ <- either (the_char "+") (the_char "-");
          read h <- two_digits;
          read colon <- maybe_char ":";
          read m <- two_digits;
          read _ <- check (m <=? 59);
          read seconds <- optional offset_seconds;
          check ((h <? 24) &&
                 match seconds with
                 | Some colon' => Bool.eqb colon colon'
                 | None => true
                 end)).

(** The days of the month [m] of the year [y]. *)
Definition leap_year (y : Z) : bool :=
  ((y mod 4 =? 0) && negb (y mod 100 =? 0)) || (y mod 400 =? 0).

Definition days_in (y m : Z) : Z :=
  if m =? 2 then (if leap_year y then 29 else 28)
  else if (m =? 4) || (m =? 6) || (m =? 9) || (m =? 11) then 30
  else 31.

(** The fields of a timestamp, in the order of the format; the year, the
    month and the day are returned. *)
Definition timestamp_fields : reader (Z * Z * Z) :=
  read y <- year_digits;
  read _ <- the_char "-";
  read m <- number 1 12;
  read _ <- the_char "-";
  read d <- day_number;
  read _ <- letter_T;
  read _ <- number 0 23;
  read _ <- the_char ":";
  read _ <- number 0 59;
  read _ <- the_char ":";
  read _ <- number 0 59;
  read _ <- offset;
  give (y, m, d).

(** The year of a timestamp: the whole string is read, the year is not 0
    and the day is a day of the month. *)
Definition timestamp (s : string) : option Z :=
  match timestamp_fields (list_ascii_of_string s) with
  | Some ((y, m, d), []) => if (1 <=? y) && (d <=? days_in y m) then Some y else None
  | _ => None
  end.

(** *** ISO 8601

    A timestamp with offset in the extended format of ISO 8601: the
    calendar date YYYY-MM-DD, the letter T, the time of day hh:mm:ss with an
    optional decimal fraction of the second after a point or a comma, and
    the zone designator: the letter Z, or the difference from UTC as
    +hh:mm, -hh:mm, +hh or -hh. *)

(** Decimal digits, as many as are written. *)
Fixpoint digits (l : list ascii) : option (unit * list ascii) :=
  match l with
  | c :: rest => if is_ascii_digit c then digits rest else Some (tt, l)
  | [] => Some (tt, l)
  end.

Definition decimal_fraction : reader unit :=
  read _ <- either (the_char ".") (the_char ",");
  read _ <- one_digit;
  digits.

Definition zone_designator : reader unit :=
  either (the_char "Z")
         (read _ <- either (the_char "+") (the_char "-");
          read h <- two_digits;
          read m <- optional (read _ <- the_char ":"; two_digits);
          check ((h <=? 23) &&
                 match m with
                 | Some m => m <=? 59
                 | None => true
                 end)).

Definition iso8601_fields : reader (Z * Z * Z) :=
  read y <- year_digits;
  read _ <- the_char "-";
  read m <- two_digits;
  read _ <- the_char "-";
  read d <- two_digits;
  read _ <- the_char "T";
  read h <- two_digits;
  read _ <- the_char ":";
  read mi <- two_digits;
  read _ <- the_char ":";
  read s <- two_digits;
  read _ <- check ((h <=? 23) && (mi <=? 59) && (s <=? 60));
  read _ <- optional decimal_fraction;
  read _ <- zone_designator;
  give (y, m, d).

(** The year of an ISO 8601 timestamp with offset: the whole string is
    read, and the date is a date of the calendar. *)
Definition iso8601 (s : string) : option Z :=
  match iso8601_fields (list_ascii_of_string s) with
  | Some ((y, m, d), []) =>
      if (1 <=? m) && (m <=? 12) && (1 <=? d) && (d <=? days_in y m)
      then Some y else None
  | _ => None
  end.

End Timestamp.

(** ** The specification's notions *)

Module Spec.

(** The requests the batch fetcher is to issue: the [i]-th of [n] at offset
    [start + i * b], asking for [min b (end - offset)] results. *)
Definition schedule (start_index end_index batch_size n : Z) : list (Z * Z) :=
  map (fun i => let offset := start_index + i * batch_size in
                (offset, Z.min batch_size (end_index - offset)))
      (seqZ 0 n).

(** A computation of the fetch script that posts nothing. *)
Definition silent {A} (m : Eff.M Fetch.state A) : Prop :=
  ∀ st r st', m st = (r, st') → Fetch.requests st' = Fetch.requests st.

(** What a failed request leaves in the output file. *)
Definition failure_lines (output_file : bool) (offset : Z) (e : string)
    (response_text : option string) : list chunk :=
  if output_file then
    ErrorLine (RequestError offset e) ::
    match response_text with
    | Some text => [ErrorLine (ResponseText text)]
    | None => []
    end
  else [].

(** The selection predicate on the fields of a Grantor record, for a way
    [year_of] of reading the date: the date is a string that is read, and
    its year is 2024; the price is a number of at least 200000 (the numbers
    of the embedding are the integers); the instrument type is "DEED"; and
    the document link is present and not empty (Python's truth value:
    [None], [""], [0], [False] and empty containers are empty). *)
Definition qualifies_by (year_of : string -> option Z)
    (grantor : list (string * json)) : Prop :=
  (∃ s, assoc "Date" grantor = Some (JStr s) ∧ year_of s = Some 2024) ∧
  (∃ z, assoc "Price" grantor = Some (JInt z) ∧ 200000 ≤ z) ∧
  assoc "InstrumentType" grantor = Some (JStr "DEED") ∧
  (∃ link, assoc "BureauOfConveyancesLink" grantor = Some link ∧ truthy link = true).

(** In the words of the specification: the date parses as an ISO 8601
    timestamp with offset. *)
Definition qualifies : list (string * json) -> Prop :=
  qualifies_by Timestamp.iso8601.

(** With the date the format of the filter reads. *)
Definition selects : list (string * json) -> Prop :=
  qualifies_by Timestamp.timestamp.

(** The four Grantor sub-fields the filter looks for. *)
Definition guarded_fields : list string :=
  ["Date"; "Price"; "InstrumentType"; "BureauOfConveyancesLink"].

(** The row of the export for a record of the enrichment step: the three
    fields as they are (the empty string when absent) and the cleaned tax. *)
Definition row_of (fields : list (string * json)) : list json :=
  [default (JStr "") (assoc "ParcelNumber" fields);
   default (JStr "") (assoc "Date" fields);
   default (JStr "") (assoc "Price" fields);
   JStr (Csv.clean_conveyance_tax (default (JStr "") (assoc "ConveyanceTax" fields)))].

(** A numeric tax value: a string that, its commas removed, [float] reads. *)
Definition numeric (v : json) : Prop :=
  ∃ s, v = JStr s ∧ Csv.float_ok (Csv.remove_commas s) = true.

(** The record the enrichment step writes for a transfer it cannot read a
    tax for. *)
Definition error_record (parcel_number tmk date price link : json) : list (string * json) :=
  [("ParcelNumber", parcel_number); ("TMK", tmk); ("Date", date);
   ("Price", price); ("BureauOfConveyancesLink", link);
   ("ConveyanceTax", JStr "ERROR")].

End Spec.

(** ** The records of a file and their keys *)

Module Dedup.
Import Process.

(** The objects a parsed value consists of at its top: itself, or those of
    its elements. *)
Fixpoint leaves (v : json) : list (list (string * json)) :=
  match v with
  | JObj fields => [fields]
  | JArr l => flat_map leaves l
  | _ => []
  end.

(** The key of a record of the output file, when it has one. *)
Definition record_key (fields : list (string * json)) : option RecordKey :=
  match item_key (JObj fields) with
  | Ok key => Some key
  | Raise _ => None
  end.

Definition file_keys (f : list chunk) : list RecordKey :=
  omap record_key (records f).

(** The records of a file that have the key [key]. *)
Definition holders (key : RecordKey) (f : file) : list (list (string * json)) :=
  filter (fun fields => record_key fields = Some key) (records (default [] f)).

(** At most one record of the file has any given key. *)
Definition at_most_one (f : file) : Prop :=
  ∀ key, (length (holders key f) ≤ 1)%nat.

(** The keys that are added when the keys [keys] are met in order and
    [known] are known already: the first occurrence of each unknown key. *)
Fixpoint fresh (known : gset RecordKey) (keys : list RecordKey) : list RecordKey :=
  match keys with
  | [] => []
  | key :: keys' =>
      if decide (key ∈ known) then fresh known keys'
      else key :: fresh ({[key]} ∪ known) keys'
  end.

(** The keys the run knows: those loaded and those written. *)
Definition seen (st : state) : gset RecordKey :=
  dom (existing_transfers st) ∪ dom (new_transfers st).

Definition key_parcel (key : RecordKey) : hkey := key.1.1.1.

Fixpoint map_res {A B} (f : A -> res B) (l : list A) : res (list B) :=
  match l with
  | [] => Ok []
  | x :: l' =>
      let* y := f x in
      let* ys := map_res f l' in
      Ok (y :: ys)
  end.

(** The key of a transfer of the input, as the loop computes it. *)
Definition transfer_key (parcel_number transfer : json) : res RecordKey :=
  let* grantor := get transfer "Grantor" (JObj []) in
  let* date := get grantor "Date" JNull in
  let* price := get grantor "Price" JNull in
  let* link := get grantor "BureauOfConveyancesLink" JNull in
  hash_key parcel_number date price link.

(** The keys of the transfers of a parcel, of an input, in order. *)
Definition parcel_keys (taxmapkey : json) : res (list RecordKey) :=
  let* parcel_number := get taxmapkey "ParcelNumber" JNull in
  let* tmk := convert_to_tmk_format parcel_number in
  let* transfers_value := get taxmapkey "Transfers" (JArr []) in
  let* transfers := iter transfers_value in
  map_res (transfer_key parcel_number) transfers.

Definition input_keys (data : json) : res (list RecordKey) :=
  let* taxmapkeys := iter data in
  let* keys := map_res parcel_keys taxmapkeys in
  Ok (concat keys).

(** The state a run starts in. *)
Definition initial (output : file) : state :=
  {| out := default [] output; existing_transfers := ∅; new_transfers := ∅;
     first_item := true; calls := [] |}.

(** The chunks the run appends to: the file as it was when it could be
    read, the opening bracket of a file started anew otherwise. *)
Definition base (output : file) : list chunk :=
  match output ≫= json_load with
  | Some _ => default [] output
  | None => [LBracket; Newline]
  end.

(** The run reaches its end without an exception. *)
Definition completes (extract : nat -> json -> string) (input : input_file)
    (output : file) : Prop :=
  ∃ st, body extract input output (initial output) = (Ok tt, st).

(** [st'] is [st] after the transfers with keys [keys] were met: the file
    has grown by records for the fresh keys, which are now in
    [new_transfers]. *)
Definition extends (keys : list RecordKey) (st st' : state) : Prop :=
  existing_transfers st' = existing_transfers st ∧
  dom (new_transfers st') = dom (new_transfers st) ∪ list_to_set (fresh (seen st) keys) ∧
  ∃ written,
    out st' = (out st ++ written)%list ∧
    record_key <$> records written = Some <$> fresh (seen st) keys.

(** A result other than a [JSONDecodeError]. *)
Definition plain {A} (r : res A) : Prop := r ≠ Raise JSONDecodeError.

Definition plainM {A} (m : Eff.M state A) : Prop :=
  ∀ st r st', m st = (r, st') → plain r.

End Dedup.

(** ** Inputs used in the examples *)

Module Examples.
Import Spec.

(** A parcel number whose second character is the superscript two. *)
Definition superscript_parcel : string :=
  String "1" (String (ascii_of_nat 178) "34567890123").

(** A server that fails every request. *)
Definition always_failing : Z -> Z -> Fetch.response :=
  fun _ _ => Fetch.Failed "503 Server Error" None.

(** A server whose second batch (offset 1000) fails with a 502 response,
    while the first and the third each return one parcel. *)
Definition parcel (number : string) : json :=
  JObj [("TaxMapKey", JObj [("ParcelNumber", JStr number)])].

Definition failing_at_1000 : Z -> Z -> Fetch.response :=
  fun offset _ =>
    if offset =? 1000 then Fetch.Failed "502 Server Error" (Some "Bad Gateway")
    else if offset =? 0 then Fetch.Payload (JObj [("data", JArr [parcel "1230040050000"])])
    else Fetch.Payload (JObj [("data", JArr [parcel "1230040060000"])]).

Definition extracted (number : string) : list (string * json) :=
  [("ParcelNumber", JStr number); ("LastSaleDate", JNull);
   ("LastSalePrice", JNull); ("LastSaleInstrument", JNull)].

Definition grantor_of (date : string) : list (string * json) :=
  [("Date", JStr date); ("Price", JInt 250000); ("InstrumentType", JStr "DEED");
   ("BureauOfConveyancesLink", JStr "https://boc.example/doc/1.pdf")].

Definition transfer_of (date : string) : list (string * json) :=
  [("Grantor", JObj (grantor_of date))].

(** A parcel whose second transfer has no Grantor. *)
Definition parcel_without_grantor : list (string * json) :=
  [("ParcelNumber", JStr "1230040050000");
   ("Transfers", JArr [JObj (transfer_of "2024-06-15T00:00:00-10:00");
                       JObj [("DocumentNumber", JStr "A-1")]])].

(** An extractor that finds the same amount in every document. *)
Definition fixed_tax : nat -> json -> string := fun _ _ => "1,234.50".

Definition empty_run : Process.state :=
  {| Process.out := [LBracket; Newline]; Process.existing_transfers := ∅;
     Process.new_transfers := ∅; Process.first_item := true; Process.calls := [] |}.

(** Inputs of the enrichment step: a parcel with one transfer; the same
    parcel with a second transfer and, under a second entry, the first one
    again. *)
Definition transfer_on (date : string) (price : Z) (link : string) : json :=
  JObj [("Grantor", JObj [("Date", JStr date); ("Price", JInt price);
                          ("InstrumentType", JStr "DEED");
                          ("BureauOfConveyancesLink", JStr link)])].

Definition june_transfer : json :=
  transfer_on "2024-06-15T00:00:00-10:00" 250000 "https://boc.example/doc/1.pdf".

Definition july_transfer : json :=
  transfer_on "2024-07-01T00:00:00-10:00" 300000 "https://boc.example/doc/2.pdf".

Definition input_one : json :=
  JArr [JObj [("ParcelNumber", JStr "1230040050000");
              ("Transfers", JArr [june_transfer])]].

Definition input_two : json :=
  JArr [JObj [("ParcelNumber", JStr "1230040050000");
              ("Transfers", JArr [june_transfer; july_transfer])];
        JObj [("ParcelNumber", JStr "1230040050000");
              ("Transfers", JArr [june_transfer])]].

Definition persisted (date : string) (price : Z) (link : string) : list (string * json) :=
  [("ParcelNumber", JStr "1230040050000"); ("TMK", JStr "1-2-3-4-5");
   ("Date", JStr date); ("Price", JInt price);
   ("BureauOfConveyancesLink", JStr link); ("ConveyanceTax", JStr "1,234.50")].

Definition june_record : list (string * json) :=
  persisted "2024-06-15T00:00:00-10:00" 250000 "https://boc.example/doc/1.pdf".

Definition july_record : list (string * json) :=
  persisted "2024-07-01T00:00:00-10:00" 300000 "https://boc.example/doc/2.pdf".

(** The output file after a first run on [input_one]. *)
Definition first_output : list chunk :=
  [LBracket; Newline; Object june_record; Newline; RBracket].

(** The output file after a second run, on [input_two], against
    [first_output]. *)
Definition second_output : list chunk :=
  [LBracket; Newline; Object june_record; Newline; RBracket;
   Comma; Newline; Object july_record; Newline; RBracket].

(** An extractor that finds no tax in any document. *)
Definition no_tax_found : nat -> json -> string := fun _ _ => "Not found".

Definition june_key : Process.RecordKey :=
  (HStr "1230040050000", HStr "2024-06-15T00:00:00-10:00", HNum 250000,
   HStr "https://boc.example/doc/1.pdf").

Definition july_key : Process.RecordKey :=
  (HStr "1230040050000", HStr "2024-07-01T00:00:00-10:00", HNum 300000,
   HStr "https://boc.example/doc/2.pdf").

(** A server with no results. *)
Definition no_results : Z -> Z -> Fetch.response :=
  fun _ _ => Fetch.Payload (JObj [("data", JArr [])]).

End Examples.

(** ** Notions used for the remaining functions *)

Module Coverage.

(** An amount as the export writes it: decimal digits, with at most one
    point, and at least one digit. *)
Definition plain_decimal (s : string) : Prop :=
  ∃ whole fraction : list ascii,
    Forall (fun c => is_ascii_digit c = true) whole ∧
    Forall (fun c => is_ascii_digit c = true) fraction ∧
    (whole ++ fraction)%list ≠ [] ∧
    (s = string_of_list_ascii (whole ++ fraction) ∨
     s = string_of_list_ascii (whole ++ "."%char :: fraction)).

End Coverage.

(** * Properties *)

Import Spec Examples.

(** ** The TMK formatter *)

Section Tmk.
Import Process.

Lemma tmk_passthrough (s : string) :
  String.length s ≠ 13%nat ∨ isdigit s = false →
  convert_to_tmk_format (JStr s) = Ok (JStr s).
Proof.
  intros H. unfold convert_to_tmk_format. cbn [len rbind].
  destruct (Z.of_nat (String.length s) =? 13) eqn:E; cbn [negb]; [|done].
  apply Z.eqb_eq in E.
  destruct H as [H|H]; [lia|]. by rewrite H.
Qed.

Lemma ascii_digit_isdigit (c : ascii) :
  is_ascii_digit c = true → isdigit_char c = true.
Proof. unfold isdigit_char. by intros ->. Qed.

(** On thirteen decimal digits the formatter writes the five groups, and
    the sixth when it is not zero. *)
Lemma tmk_decimal (s : string) :
  String.length s = 13%nat → all_chars is_ascii_digit s = true →
  convert_to_tmk_format (JStr s) =
    let field n m := int_digits 0 (substring n m s) in
    let tmk := substring 0 1 s +:+ "-" +:+ str (field 1 1)%nat +:+ "-"
               +:+ str (field 2 1)%nat +:+ "-" +:+ str (field 3 3)%nat +:+ "-"
               +:+ str (field 6 3)%nat in
    Ok (JStr (if field 9%nat 4%nat =? 0 then tmk
              else tmk +:+ "-" +:+ str (field 9 4)%nat)).
Proof.
  intros Hlen Hdig.
  do 13 (destruct s as [|? s]; [discriminate Hlen|]).
  destruct s; [|discriminate Hlen].
  cbn [all_chars] in Hdig.
  repeat (apply andb_prop in Hdig as [? Hdig]).
  unfold convert_to_tmk_format, isdigit, int.
  cbn [len rbind String.length Z.of_nat Pos.of_succ_nat Pos.succ Z.eqb Pos.eqb negb
       String.eqb all_chars substring andb].
  repeat match goal with
         | H : is_ascii_digit ?c = true |- _ =>
             rewrite (ascii_digit_isdigit c H); try rewrite H; clear H
         end.
  change (Z.of_nat 13 =? 13) with true.
  cbn [andb negb rbind].
  by destruct (int_digits 0 _ =? 0).
Qed.

(** C7, at the failing input: a parcel number of thirteen characters that
    all satisfy [isdigit] goes past the guard, and [int] raises on the
    superscript: the formatter is not total. *)
Theorem tmk_raises_on_superscript_digit :
  String.length superscript_parcel = 13%nat ∧
  isdigit superscript_parcel = true ∧
  convert_to_tmk_format (JStr superscript_parcel) = Raise ValueError.
Proof. by vm_compute. Qed.

End Tmk.

(** ** The batch fetcher *)

Section BatchFetcher.
Import Eff Fetch.

Lemma silent_ret {A} (a : A) : silent (ret a).
Proof. by intros st r st' [= <- <-]. Qed.

Lemma silent_lift {A} (x : res A) : silent (lift x).
Proof. by intros st r st' [= <- <-]. Qed.

Lemma silent_append cs : silent (append cs).
Proof. by intros st r st' [= <- <-]. Qed.

Lemma silent_bind {A B} (m : M state A) (k : A → M state B) :
  silent m → (∀ a, silent (k a)) → silent (bind m k).
Proof.
  intros Hm Hk st r st'. unfold bind.
  destruct (m st) as [[a|e] st1] eqn:E1; intros E2.
  - rewrite (Hk _ _ _ _ E2). eauto.
  - injection E2 as <- <-. eauto.
Qed.

Lemma silent_write_error output_file a : silent (_write_error output_file a).
Proof. destruct output_file; [apply silent_append | apply silent_ret]. Qed.

Lemma silent_write_to_file output_file message is_last :
  silent (_write_to_file output_file message is_last).
Proof. destruct output_file; [apply silent_append | apply silent_ret]. Qed.

Lemma silent_write_batch output_file last j n results :
  silent (write_batch output_file last j n results).
Proof.
  revert j. induction results as [|result rest IH]; intros j; cbn [write_batch].
  - apply silent_ret.
  - apply silent_bind; [apply silent_write_to_file | intros _; apply IH].
Qed.

(** A round of the loop posts exactly its own request, whatever the answer
    and whether or not it raises. *)
Lemma fetch_batch_requests output_file post start_index end_index batch_size n i st r st' :
  fetch_batch output_file post start_index end_index batch_size n i st = (r, st') →
  requests st' =
    (requests st ++
     [(start_index + i * batch_size,
       Z.min batch_size (end_index - (start_index + i * batch_size)))])%list.
Proof.
  unfold fetch_batch.
  set (offset := start_index + i * batch_size).
  set (limit := Z.min batch_size (end_index - offset)).
  set (rest := match post offset limit with Payload _ => _ | Failed _ _ => _ end).
  assert (silent rest) as Hrest.
  { subst rest. destruct (post offset limit) as [e [text|]|response_data].
    - apply silent_bind; [apply silent_write_error | intros _; apply silent_write_error].
    - apply silent_bind; [apply silent_write_error | intros _; apply silent_ret].
    - apply silent_bind; [apply silent_lift | intros [|]; [|apply silent_ret]].
      apply silent_bind; [apply silent_lift | intros data].
      apply silent_bind; [apply silent_lift | intros items].
      apply silent_bind; [apply silent_lift | intros batch_results].
      apply silent_write_batch. }
  unfold bind at 1. cbn [record_request modify].
  intros E. by rewrite (Hrest _ _ _ E).
Qed.

Lemma for_each_requests output_file post start_index end_index batch_size n l st r st' :
  for_each l (fetch_batch output_file post start_index end_index batch_size n) st = (r, st') →
  ∃ k : nat,
    requests st' =
      (requests st ++
       take k (map (fun i => (start_index + i * batch_size,
                              Z.min batch_size (end_index - (start_index + i * batch_size)))) l))%list
    ∧ (r = Ok tt → k = length l).
Proof.
  revert st. induction l as [|i l IH]; intros st; cbn [for_each].
  - intros [= <- <-]. exists 0%nat. by rewrite app_nil_r.
  - unfold bind at 1.
    destruct (fetch_batch _ _ _ _ _ _ i st) as [[[]|e] st1] eqn:E1; intros E2.
    + apply fetch_batch_requests in E1.
      destruct (IH _ E2) as (k & Hk & Hok).
      exists (S k). split; [|by intros ->%Hok].
      rewrite Hk, E1. cbn [map take]. by rewrite <- app_assoc.
    + injection E2 as <- <-.
      apply fetch_batch_requests in E1.
      exists 1%nat. split; [|done]. rewrite E1. cbn [map take]. by rewrite take_0.
Qed.

(** C5: over a range [[start, end)] with [end > start] and a batch size
    [b > 0], the fetcher computes [n = ceil ((end - start) / b)] and posts
    the requests of the schedule in order: the [i]-th at offset
    [start + i * b] with limit [min b (end - offset)]. It posts all [n] of
    them when it returns, and a prefix of them when a batch raised an
    exception other than a request failure. *)
Theorem fetch_results_schedule output_file post start_index end_index batch_size st r st' :
  start_index < end_index → 0 < batch_size →
  fetch_results output_file post start_index end_index batch_size st = (r, st') →
  ∃ (n : Z) (k : nat),
    (n - 1) * batch_size < end_index - start_index ≤ n * batch_size ∧
    requests st' =
      (requests st ++ take k (schedule start_index end_index batch_size n))%list ∧
    (r = Ok tt →
     requests st' = (requests st ++ schedule start_index end_index batch_size n)%list).
Proof.
  intros Hrange Hb. unfold fetch_results, floordiv.
  destruct (batch_size =? 0) eqn:E0; [lia|]. clear E0.
  unfold bind at 1. cbn [lift].
  set (n := (end_index - start_index + batch_size - 1) / batch_size).
  unfold bind at 1.
  destruct (for_each _ _ st) as [[[]|e] st1] eqn:E1; intros E2.
  - destruct (for_each_requests _ _ _ _ _ _ _ _ _ _ E1) as (k & Hk & Hok).
    exists n, k.
    assert (requests st' = requests st1) as ->.
    { destruct output_file; by injection E2 as <- <-. }
    split; [|split].
    + pose proof (Z.div_mod (end_index - start_index + batch_size - 1) batch_size).
      pose proof (Z.mod_pos_bound (end_index - start_index + batch_size - 1) batch_size).
      fold n in H. split; nia.
    + exact Hk.
    + intros _. rewrite Hk, (Hok eq_refl). unfold schedule.
      by rewrite <- (length_map (fun i => (start_index + i * batch_size,
        Z.min batch_size (end_index - (start_index + i * batch_size))))), firstn_all.
  - injection E2 as <- <-.
    destruct (for_each_requests _ _ _ _ _ _ _ _ _ _ E1) as (k & Hk & Hok).
    exists n, k. split; [|split; [exact Hk|done]].
    pose proof (Z.div_mod (end_index - start_index + batch_size - 1) batch_size).
    pose proof (Z.mod_pos_bound (end_index - start_index + batch_size - 1) batch_size).
    fold n in H. split; nia.
Qed.

(** Over [[0, 2500)] with batches of 1000 the requests are (0,1000),
    (1000,1000) and (2000,500). *)
Lemma fetch_results_schedule_witness :
  let run := fetch_results true always_failing 0 2500 1000 (init true) in
  requests (snd run) = [(0, 1000); (1000, 1000); (2000, 500)] ∧
  ∃ (n : Z) (k : nat),
    (n - 1) * 1000 < 2500 - 0 ≤ n * 1000 ∧
    requests (snd run) = (requests (init true) ++ take k (schedule 0 2500 1000 n))%list ∧
    (fst run = Ok tt →
     requests (snd run) = (requests (init true) ++ schedule 0 2500 1000 n)%list).
Proof.
  split; [reflexivity|].
  apply (fetch_results_schedule true always_failing 0 2500 1000 (init true));
    [lia | lia | reflexivity].
Defined.

End BatchFetcher.

(** ** Failure of one batch *)

Section BatchFailure.
Import Eff Fetch.

(** C4: when the request of a batch fails (a [RequestException]: transport
    error, error status, undecodable body), the round writes an error line
    that names the batch's offset (and a second one with the response's
    text, when there is a response), does not raise, and the loop goes on
    with the batches that follow, from the state the round left. *)
Theorem failed_batch_is_skipped output_file post start_index end_index batch_size
    n i rest st e response_text :
  post (start_index + i * batch_size)
       (Z.min batch_size (end_index - (start_index + i * batch_size)))
    = Failed e response_text →
  for_each (i :: rest)
    (fetch_batch output_file post start_index end_index batch_size n) st =
  for_each rest
    (fetch_batch output_file post start_index end_index batch_size n)
    {| out := (out st ++ failure_lines output_file (start_index + i * batch_size)
                          e response_text)%list;
       requests := (requests st ++
                    [(start_index + i * batch_size,
                      Z.min batch_size (end_index - (start_index + i * batch_size)))])%list |}.
Proof.
  intros Hpost. cbn [for_each]. unfold bind at 1.
  unfold fetch_batch. rewrite Hpost.
  unfold failure_lines, _write_error, bind, record_request, append, modify, ret.
  destruct output_file, response_text; cbn [out requests];
    rewrite ?app_nil_r, <- ?app_assoc; reflexivity.
Qed.

(** With three batches of 1000 of which the second fails, the third is
    still requested and its parcel written after the two error lines. *)
Lemma failed_batch_is_skipped_witness :
  failing_at_1000 (0 + 1 * 1000) (Z.min 1000 (3000 - (0 + 1 * 1000)))
    = Failed "502 Server Error" (Some "Bad Gateway") ∧
  for_each [1; 2] (fetch_batch true failing_at_1000 0 3000 1000 3)
    {| out := [LBracket; Newline; Object (extracted "1230040050000"); Comma; Newline];
       requests := [(0, 1000)] |} =
  (Ok tt,
   {| out := [LBracket; Newline; Object (extracted "1230040050000"); Comma; Newline;
              ErrorLine (RequestError 1000 "502 Server Error");
              ErrorLine (ResponseText "Bad Gateway");
              Object (extracted "1230040060000"); Newline];
      requests := [(0, 1000); (1000, 1000); (2000, 1000)] |}).
Proof.
  split; [reflexivity|].
  rewrite (failed_batch_is_skipped true failing_at_1000 0 3000 1000 3 1 [2] _
             "502 Server Error" (Some "Bad Gateway") eq_refl).
  reflexivity.
Defined.

(** The same run as a whole, from the client's creation. *)
Lemma fetch_results_after_failure :
  fetch_results true failing_at_1000 0 3000 1000 (init true) =
  (Ok tt,
   {| out := [LBracket; Newline; Object (extracted "1230040050000"); Comma; Newline;
              ErrorLine (RequestError 1000 "502 Server Error");
              ErrorLine (ResponseText "Bad Gateway");
              Object (extracted "1230040060000"); Newline;
              RBracket; Newline];
      requests := [(0, 1000); (1000, 1000); (2000, 1000)] |}).
Proof. reflexivity. Qed.

End BatchFailure.

(** ** The dates [strptime] reads

    The matcher of the library returns every way of matching a prefix of
    the text, in the order of the regular-expression engine; [strptime]
    takes the first and fails when text is left over. It is shown to read
    the strings of the format as [Timestamp.timestamp] describes them. *)

Section Dates.
Import Strptime Timestamp.

(** *** Digits *)

Lemma digit_value_range c : is_ascii_digit c = true → 0 ≤ digit_value c ≤ 9.
Proof.
  unfold is_ascii_digit, digit_value. intros H.
  apply andb_prop in H as [H1 H2]. apply Nat.leb_le in H1, H2. lia.
Qed.

Lemma digit_is_not c0 c :
  is_ascii_digit c0 = false → is_ascii_digit c = true → Ascii.eqb c0 c = false.
Proof.
  intros H0 H. destruct (Ascii.eqb c0 c) eqn:E; [|done].
  apply Ascii.eqb_eq in E as ->. congruence.
Qed.

(** *** The matchers of one character *)

Lemma seq_found {A B} (p : parser A) (k : A → parser B) l a rest :
  p l = [(a, rest)] → seq p k l = k a rest.
Proof. unfold seq. intros ->. cbn. apply app_nil_r. Qed.

Lemma seq_nothing {A B} (p : parser A) (k : A → parser B) l :
  p l = [] → seq p k l = [].
Proof. unfold seq. by intros ->. Qed.

Lemma seq_pure {A B} (p : parser A) (f : A → B) l :
  seq p (fun a => pure (f a)) l = map (fun ar => (f ar.1, ar.2)) (p l).
Proof.
  unfold seq, pure. induction (p l) as [|[a rest] results IH]; [done|].
  cbn. by rewrite IH.
Qed.

Lemma seq_lit {B} c (k : unit → parser B) l :
  seq (lit c) k l =
    match the_char c l with
    | Some (_, rest) => k tt rest
    | None => []
    end.
Proof.
  destruct l as [|c' rest]; [done|].
  unfold lit, seq, sat, pure, the_char. destruct (Ascii.eqb c c'); [|done].
  cbn. by rewrite !app_nil_r.
Qed.

Lemma seq_digit {B} lo hi (k : Z → parser B) l :
  seq (digit lo hi) k l =
    match one_digit l with
    | Some (v, rest) => if (lo <=? v) && (v <=? hi) then k v rest else []
    | None => []
    end.
Proof.
  destruct l as [|c rest]; [done|].
  unfold digit, seq, sat, pure, one_digit.
  destruct (is_ascii_digit c); cbn [andb]; [|done].
  destruct (_ && _); [|done]. cbn. by rewrite !app_nil_r.
Qed.

Lemma seq_any_digit {B} (k : Z → parser B) l :
  seq (digit 0 9) k l =
    match one_digit l with
    | Some (v, rest) => k v rest
    | None => []
    end.
Proof.
  rewrite seq_digit. destruct l as [|c rest]; [done|]. unfold one_digit.
  destruct (is_ascii_digit c) eqn:E; [|done].
  apply digit_value_range in E.
  destruct (Z.leb_spec 0 (digit_value c)); [|lia].
  destruct (Z.leb_spec (digit_value c) 9); [done|lia].
Qed.

Lemma seq_seq {A B C} (p : parser A) (k : A → parser B) (k' : B → parser C) l :
  seq (seq p k) k' l = seq p (fun a => seq (k a) k') l.
Proof.
  unfold seq. induction (p l) as [|[a rest] results IH]; [done|].
  cbn. by rewrite flat_map_app, IH.
Qed.

Lemma seq_alt {A B} (p q : parser A) (k : A → parser B) l :
  seq (alt p q) k l = (seq p k l ++ seq q k l)%list.
Proof. unfold seq, alt. apply flat_map_app. Qed.

Lemma seq_pure_l {A B} (a : A) (k : A → parser B) l : seq (pure a) k l = k a l.
Proof. unfold seq, pure. cbn. apply app_nil_r. Qed.

(** Two digits, the first in a range. *)
Lemma seq_two {B} lo hi lo' hi' (k : Z → parser B) l :
  seq (two (digit lo hi) (digit lo' hi')) k l =
    match one_digit l with
    | Some (a, l') =>
        if (lo <=? a) && (a <=? hi) then
          match one_digit l' with
          | Some (b, rest) =>
              if (lo' <=? b) && (b <=? hi') then k (10 * a + b) rest else []
          | None => []
          end
        else []
    | None => []
    end.
Proof.
  unfold two. rewrite seq_seq, seq_digit.
  destruct (one_digit l) as [[a l']|]; [|done].
  destruct (_ && _); [|done].
  rewrite seq_seq, seq_digit.
  destruct (one_digit l') as [[b rest]|]; [|done].
  destruct (_ && _); [|done]. apply seq_pure_l.
Qed.

Lemma one_digit_range l v rest : one_digit l = Some (v, rest) → 0 ≤ v ≤ 9.
Proof.
  destruct l as [|c l']; [done|]. unfold one_digit.
  destruct (is_ascii_digit c) eqn:E; [|done]. intros [= <- <-].
  by apply digit_value_range.
Qed.

Lemma one_digit_starts l v rest :
  one_digit l = Some (v, rest) → ∃ c, l = c :: rest ∧ is_ascii_digit c = true.
Proof.
  destruct l as [|c l']; [done|]. unfold one_digit.
  destruct (is_ascii_digit c) eqn:E; [|done]. intros [= <- <-]. eauto.
Qed.

(** *** The numbers of one or two digits

    Each directive tries its patterns of two digits before those of one
    digit; what follows a number begins with no digit, so that the reading
    of one digit where two are written leads nowhere. *)

Ltac digit_cases a :=
  match goal with
  | H : 0 ≤ a ≤ 9 |- _ =>
      let Hc := fresh in
      assert (a = 0 ∨ a = 1 ∨ a = 2 ∨ a = 3 ∨ a = 4 ∨ a = 5 ∨ a = 6 ∨ a = 7 ∨ a = 8 ∨ a = 9)
        as Hc by lia;
      clear H;
      destruct Hc as [->|[->|[->|[->|[->|[->|[->|[->|[->| ->]]]]]]]]]
  end.

Ltac number_cases Hk :=
  match goal with
  | |- context [one_digit ?l] =>
      let a := fresh "a" in
      let l' := fresh "l'" in
      let E1 := fresh "E1" in
      destruct (one_digit l) as [[a l']|] eqn:E1;
      [ pose proof (one_digit_range _ _ _ E1);
        let b := fresh "b" in
        let rest := fresh "rest" in
        let E2 := fresh "E2" in
        destruct (one_digit l') as [[b rest]|] eqn:E2;
        [ pose proof (one_digit_range _ _ _ E2);
          let c := fresh "c" in
          let Hc := fresh "Hc" in
          destruct (one_digit_starts _ _ _ E2) as (c & -> & Hc);
          digit_cases a; digit_cases b; cbn;
          rewrite ?(Hk _ _ _ Hc), ?app_nil_r; reflexivity
        | digit_cases a; cbn; rewrite ?app_nil_r; reflexivity ]
      | ]
  end.

Ltac number_directive Hk :=
  rewrite ?seq_alt, ?seq_two, ?seq_digit;
  unfold number, one_or_two_digits, either, two_digits, and_then, give, check;
  number_cases Hk.

Lemma seq_dir_m {B} (k : Z → parser B) l :
  (∀ v c rest, is_ascii_digit c = true → k v (c :: rest) = []) →
  seq dir_m k l =
    match number 1 12 l with
    | Some (v, rest) => k v rest
    | None => []
    end.
Proof. intros Hk. unfold dir_m. number_directive Hk. done. Qed.

Lemma seq_dir_H {B} (k : Z → parser B) l :
  (∀ v c rest, is_ascii_digit c = true → k v (c :: rest) = []) →
  seq dir_H k l =
    match number 0 23 l with
    | Some (v, rest) => k v rest
    | None => []
    end.
Proof. intros Hk. unfold dir_H. number_directive Hk. done. Qed.

Lemma seq_dir_M {B} (k : Z → parser B) l :
  (∀ v c rest, is_ascii_digit c = true → k v (c :: rest) = []) →
  seq dir_M k l =
    match number 0 59 l with
    | Some (v, rest) => k v rest
    | None => []
    end.
Proof. intros Hk. unfold dir_M. number_directive Hk. done. Qed.

Lemma seq_dir_S {B} (k : Z → parser B) l :
  (∀ v c rest, is_ascii_digit c = true → k v (c :: rest) = []) →
  seq dir_S k l =
    match number 0 61 l with
    | Some (v, rest) => k v rest
    | None => []
    end.
Proof. intros Hk. unfold dir_S. number_directive Hk. done. Qed.

Lemma the_char_starts c l rest : the_char c l = Some (tt, rest) → l = c :: rest.
Proof.
  destruct l as [|c' l']; [done|]. unfold the_char.
  destruct (Ascii.eqb c c') eqn:E; [|done]. apply Ascii.eqb_eq in E as ->.
  by intros [= ->].
Qed.

Lemma seq_dir_d {B} (k : Z → parser B) l :
  (∀ v c rest, is_ascii_digit c = true → k v (c :: rest) = []) →
  seq dir_d k l =
    match day_number l with
    | Some (v, rest) => k v rest
    | None => []
    end.
Proof.
  intros Hk. unfold dir_d, day_number.
  rewrite !seq_alt, !seq_two, seq_digit, seq_seq, seq_lit.
  unfold number, one_or_two_digits, either, two_digits, and_then, give, check.
  destruct (the_char " " l) as [[[] l0]|] eqn:Espace.
  - apply the_char_starts in Espace as ->.
    change (one_digit (" "%char :: l0)) with (@None (Z * list ascii)).
    cbn [app]. rewrite seq_digit.
    destruct (one_digit l0) as [[d rest]|] eqn:E; [|done].
    apply one_digit_range in E.
    destruct (Z.leb_spec 1 d); [|done].
    destruct (Z.leb_spec d 9); [done|lia].
  - number_cases Hk. done.
Qed.

(** *** The offset

    The alternatives of the offset are tried from the longest to the
    shortest, and the first match is the one that counts. *)

Lemma hd_error_app {A} (l1 l2 : list A) x :
  hd_error l1 = Some x → hd_error (l1 ++ l2) = Some x.
Proof. by destruct l1. Qed.

Lemma at_most_digits_some n l : ∃ rest, at_most_digits n l = Some (tt, rest).
Proof.
  revert l. induction n as [|n IH]; intros [|c l]; cbn; eauto.
  destruct (is_ascii_digit c); eauto.
Qed.

Lemma digits_upto_first n l : hd_error (digits_upto n l) = at_most_digits n l.
Proof.
  revert l. induction n as [|n IH]; intros l; [by destruct l|].
  cbn [digits_upto]. unfold alt. rewrite seq_any_digit.
  destruct l as [|c l]; [done|]. unfold one_digit. cbn [at_most_digits].
  destruct (is_ascii_digit c); [|done].
  destruct (at_most_digits_some n l) as [rest Hrest]. rewrite Hrest.
  apply hd_error_app. by rewrite IH.
Qed.

Lemma fraction_first l :
  hd_error (seq (lit ".") (fun _ => seq (digit 0 9) (fun _ => digits_upto 5)) l) =
  fraction l.
Proof.
  rewrite seq_lit. unfold fraction, and_then.
  destruct (the_char "." l) as [[[] l1]|]; [|done].
  rewrite seq_any_digit. destruct (one_digit l1) as [[v l2]|]; [|done].
  apply digits_upto_first.
Qed.

Lemma seq_opt_pure {A B} (p : parser A) (f : option A → B) l :
  hd_error (seq (opt p) (fun o => pure (f o)) l) =
    Some (match hd_error (p l) with
          | Some (a, rest) => (f (Some a), rest)
          | None => (f None, l)
          end).
Proof.
  rewrite seq_pure. unfold opt, alt, seq, pure.
  by destruct (p l) as [|[a rest] results].
Qed.

Lemma seq_two_digits {B} (k : Z → parser B) l :
  seq (two (digit 0 9) (digit 0 9)) k l =
    match two_digits l with
    | Some (v, rest) => k v rest
    | None => []
    end.
Proof.
  unfold two. rewrite seq_seq, seq_any_digit. unfold two_digits, and_then, give.
  destruct (one_digit l) as [[a l']|]; [|done].
  rewrite seq_seq, seq_any_digit.
  destruct (one_digit l') as [[b rest]|]; [|done]. apply seq_pure_l.
Qed.

Lemma seq_sixty {B} (k : Z → parser B) l :
  seq (two (digit 0 5) (digit 0 9)) k l =
    match two_digits l with
    | Some (v, rest) => if v <=? 59 then k v rest else []
    | None => []
    end.
Proof.
  rewrite seq_two. unfold two_digits, and_then, give.
  destruct (one_digit l) as [[a l']|] eqn:E1; [|done].
  pose proof (one_digit_range _ _ _ E1).
  destruct (one_digit l') as [[b rest]|] eqn:E2.
  - pose proof (one_digit_range _ _ _ E2).
    digit_cases a; digit_cases b; reflexivity.
  - digit_cases a; reflexivity.
Qed.

Lemma seq_colon {B} (k : option unit → parser B) l :
  (∀ rest, k None (":"%char :: rest) = []) →
  seq (opt (lit ":")) k l =
    match maybe_char ":" l with
    | Some (colon, rest) => k (if colon then Some tt else None) rest
    | None => []
    end.
Proof.
  intros Hk. unfold opt. rewrite seq_alt, seq_seq, seq_lit, seq_pure_l.
  unfold maybe_char, and_then, optional, give.
  destruct (the_char ":" l) as [[[] rest]|] eqn:E; [|done].
  apply the_char_starts in E as ->. by rewrite seq_pure_l, Hk, app_nil_r.
Qed.

Lemma seconds_first l :
  option_map (fun found => (found.1.1, found.2))
    (hd_error
       (seq (opt (lit ":")) (fun c2 =>
        seq (two (digit 0 5) (digit 0 9)) (fun ss =>
        seq (opt (seq (lit ".") (fun _ =>
                  seq (digit 0 9) (fun _ => digits_upto 5)))) (fun _ =>
        pure (is_some c2, ss)))) l)) =
  offset_seconds l.
Proof.
  rewrite seq_colon; [|intros rest; by rewrite seq_sixty].
  unfold offset_seconds, and_then at 1.
  destruct (maybe_char ":" l) as [[colon l1]|]; [|done].
  rewrite seq_sixty. unfold and_then at 1.
  destruct (two_digits l1) as [[s l2]|]; [|done].
  unfold and_then at 1, check. destruct (s <=? 59); [|done].
  rewrite (seq_opt_pure _ (fun _ => (is_some (if colon then Some tt else None), s))).
  rewrite fraction_first. unfold and_then, optional, give. cbn [option_map fst snd].
  destruct (fraction l2) as [[[] rest]|]; by destruct colon.
Qed.

Lemma signed_first sg l :
  match hd_error
          (seq (two (digit 0 9) (digit 0 9)) (fun hh =>
           seq (opt (lit ":")) (fun c1 =>
           seq (two (digit 0 5) (digit 0 9)) (fun mm =>
           seq (opt (seq (opt (lit ":")) (fun c2 =>
                     seq (two (digit 0 5) (digit 0 9)) (fun ss =>
                     seq (opt (seq (lit ".") (fun _ =>
                               seq (digit 0 9) (fun _ => digits_upto 5)))) (fun _ =>
                     pure (is_some c2, ss))))))
               (fun sec =>
           pure (Some {| negative := sg; hours := hh; colon1 := is_some c1;
                         minutes := mm; seconds := sec |}))))) l) with
  | Some (z, rest) =>
      match utcoffset z with
      | Ok _ => Some (tt, rest)
      | Raise _ => None
      end
  | None => None
  end =
  (read h <- two_digits;
   read colon <- maybe_char ":";
   read m <- two_digits;
   read _ <- check (m <=? 59);
   read seconds <- optional offset_seconds;
   check ((h <? 24) &&
          match seconds with
          | Some colon' => Bool.eqb colon colon'
          | None => true
          end)) l.
Proof.
  rewrite seq_two_digits. unfold and_then at 1.
  destruct (two_digits l) as [[h l2]|]; [|done].
  rewrite seq_colon; [|intros rest; by rewrite seq_sixty].
  unfold and_then at 1.
  destruct (maybe_char ":" l2) as [[colon l3]|]; [|done].
  rewrite seq_sixty. unfold and_then at 1.
  destruct (two_digits l3) as [[m l4]|]; [|done].
  unfold and_then at 1, check at 1. destruct (m <=? 59); [|done].
  rewrite (seq_opt_pure _ (fun sec =>
    Some {| negative := sg; hours := h;
            colon1 := is_some (if colon then Some tt else None);
            minutes := m; seconds := sec |})).
  unfold and_then, optional. rewrite <- seconds_first.
  destruct (hd_error _) as [[[c2 ss] rest]|]; cbn;
    unfold utcoffset, check; cbn;
    [by destruct colon, c2, (h <? 24) | by destruct colon, (h <? 24)].
Qed.

Lemma dir_z_first l :
  match hd_error (dir_z l) with
  | Some (z, rest) =>
      match utcoffset z with
      | Ok _ => Some (tt, rest)
      | Raise _ => None
      end
  | None => None
  end = offset l.
Proof.
  unfold dir_z.
  match goal with
  | |- context [alt ?p ?q l] => change (alt p q l) with (p l ++ q l)%list
  end.
  rewrite seq_alt, !seq_seq, !seq_lit.
  unfold offset, either.
  destruct (the_char "Z" l) as [[[] rest]|] eqn:EZ.
  { apply the_char_starts in EZ as ->. reflexivity. }
  rewrite app_nil_r. unfold and_then at 1.
  destruct (the_char "+" l) as [[[] l1]|] eqn:Eplus.
  { apply the_char_starts in Eplus as ->.
    change (the_char "-" ("+"%char :: l1)) with (@None (unit * list ascii)).
    rewrite app_nil_r, seq_pure_l. apply signed_first. }
  destruct (the_char "-" l) as [[[] l1]|] eqn:Eminus; [|done].
  cbn [app]. rewrite seq_pure_l. apply signed_first.
Qed.

(** *** The whole format *)

Lemma seq_dir_Y {B} (k : Z → parser B) l :
  seq dir_Y k l =
    match year_digits l with
    | Some (y, rest) => k y rest
    | None => []
    end.
Proof.
  unfold dir_Y, year_digits. rewrite seq_seq, seq_two_digits. unfold and_then at 1.
  destruct (two_digits l) as [[hi l1]|]; [|done].
  rewrite seq_seq, seq_two_digits. unfold and_then, give.
  destruct (two_digits l1) as [[lo rest]|]; [|done]. apply seq_pure_l.
Qed.

Lemma seq_letter_T {B} (k : unit → parser B) l :
  seq (alt (lit "T") (lit "t")) k l =
    match letter_T l with
    | Some (_, rest) => k tt rest
    | None => []
    end.
Proof.
  rewrite seq_alt, !seq_lit. unfold letter_T, either.
  destruct (the_char "T" l) as [[[] rest]|] eqn:E; [|done].
  apply the_char_starts in E as ->.
  change (the_char "t" ("T"%char :: rest)) with (@None (unit * list ascii)).
  apply app_nil_r.
Qed.

Lemma lit_digit {B} c0 (k : unit → parser B) c rest :
  is_ascii_digit c0 = false → is_ascii_digit c = true →
  seq (lit c0) k (c :: rest) = [].
Proof.
  intros H0 Hc. rewrite seq_lit. unfold the_char. by rewrite (digit_is_not c0 c).
Qed.

Lemma dir_z_digit c rest : is_ascii_digit c = true → dir_z (c :: rest) = [].
Proof.
  intros Hc. unfold dir_z.
  match goal with
  | |- context [alt ?p ?q (c :: rest)] =>
      change (alt p q (c :: rest)) with (p (c :: rest) ++ q (c :: rest))%list
  end.
  rewrite seq_alt, !seq_seq. by rewrite !lit_digit.
Qed.

(** The first match of the format, when its second is at most 59 and its
    offset is one, is what the fields read. *)
Lemma format_first l :
  match hd_error (format l) with
  | Some (f, rest) =>
      if f_second f <=? 59 then
        match utcoffset (f_offset f) with
        | Ok _ => Some ((f_year f, f_month f, f_day f), rest)
        | Raise _ => None
        end
      else None
  | None => None
  end = timestamp_fields l.
Proof.
  unfold format, timestamp_fields.
  rewrite seq_dir_Y. unfold and_then at 1.
  destruct (year_digits l) as [[y l1]|]; [|done].
  rewrite seq_lit. unfold and_then at 1.
  destruct (the_char "-" l1) as [[[] l2]|]; [|done].
  rewrite seq_dir_m; [|intros; by apply lit_digit]. unfold and_then at 1.
  destruct (number 1 12 l2) as [[m l3]|]; [|done].
  rewrite seq_lit. unfold and_then at 1.
  destruct (the_char "-" l3) as [[[] l4]|]; [|done].
  rewrite seq_dir_d;
    [|intros v c rest Hc; rewrite seq_alt; by rewrite !lit_digit]. unfold and_then at 1.
  destruct (day_number l4) as [[d l5]|]; [|done].
  rewrite seq_letter_T. unfold and_then at 1.
  destruct (letter_T l5) as [[[] l6]|]; [|done].
  rewrite seq_dir_H; [|intros; by apply lit_digit]. unfold and_then at 1.
  destruct (number 0 23 l6) as [[h l7]|]; [|done].
  rewrite seq_lit. unfold and_then at 1.
  destruct (the_char ":" l7) as [[[] l8]|]; [|done].
  rewrite seq_dir_M; [|intros; by apply lit_digit]. unfold and_then at 1.
  destruct (number 0 59 l8) as [[mi l9]|]; [|done].
  rewrite seq_lit. unfold and_then at 1.
  destruct (the_char ":" l9) as [[[] l10]|]; [|done].
  rewrite seq_dir_S; [|intros v c rest Hc; apply seq_nothing; by apply dir_z_digit].
  unfold and_then at 1.
  assert (number 0 59 l10 =
          match number 0 61 l10 with
          | Some (s, rest) => if s <=? 59 then Some (s, rest) else None
          | None => None
          end) as ->.
  { unfold number, and_then, check, give.
    destruct (one_or_two_digits l10) as [[s rest]|]; [|done].
    destruct (Z.leb_spec 0 s), (Z.leb_spec s 61); cbn [andb]; cbv beta iota;
      destruct (Z.leb_spec s 59); done || lia. }
  destruct (number 0 61 l10) as [[s l11]|]; [|done].
  rewrite (seq_pure dir_z (fun z =>
    {| f_year := y; f_month := m; f_day := d; f_hour := h; f_minute := mi;
       f_second := s; f_offset := z |})).
  destruct (s <=? 59) eqn:Es.
  - unfold and_then, give. rewrite <- dir_z_first.
    destruct (dir_z l11) as [|[z rest] results]; cbn; [done|].
    rewrite Es. by destruct (utcoffset z).
  - destruct (dir_z l11) as [|[z rest] results]; cbn; [done|]. by rewrite Es.
Qed.

(** [strptime] reads the timestamps of the format, and its year is the
    year read. *)
Lemma strptime_reads s y :
  (∃ dt, strptime s = Ok dt ∧ year dt = y) ↔ timestamp s = Some y.
Proof.
  unfold strptime, timestamp. rewrite <- format_first.
  destruct (format (list_ascii_of_string s)) as [|[f rest] results]; cbn [hd_error].
  { split; [by intros (dt & ? & _)|done]. }
  change (days_in_month (f_year f) (f_month f)) with (days_in (f_year f) (f_month f)).
  destruct rest as [|c rest].
  - destruct (f_second f <=? 59);
      [rewrite andb_true_r|rewrite andb_false_r; split; [by intros (dt & ? & _)|done]].
    destruct (utcoffset (f_offset f)) as [off|e]; cbn [rbind]; cbv beta iota.
    + destruct (_ && _).
      * split; [by intros (dt & [= <-] & <-)|]. intros [= <-]. eauto.
      * split; [by intros (dt & ? & _)|done].
    + destruct (_ && _); (split; [by intros (dt & ? & _)|done]).
  - split; [by intros (dt & ? & _)|].
    destruct (f_second f <=? 59); [|done]. by destruct (utcoffset (f_offset f)).
Qed.

End Dates.

(** ** The selection predicate *)

Section Selection.
Import Fetch Timestamp.

Lemma subscript_grantor tkvs v :
  assoc "Grantor" tkvs = Some v → subscript (JObj tkvs) "Grantor" = Ok v.
Proof. intros H. cbn. by rewrite H. Qed.

(** [strptime] raises nothing but [ValueError] and [TypeError]. *)
Lemma strptime_outcome x :
  strptime x = Raise ValueError ∨ strptime x = Raise TypeError
  ∨ ∃ dt, strptime x = Ok dt.
Proof.
  destruct x; cbn; auto.
  unfold Strptime.strptime.
  destruct (Strptime.format _) as [|[f [|? ?]] ?]; auto.
  destruct (_ && _); auto.
  unfold Strptime.utcoffset.
  destruct (Strptime.f_offset f) as [t|]; cbn; eauto.
  destruct (_ && _); cbn; eauto.
Qed.

Lemma keep_transfer_unfold tkvs g :
  assoc "Grantor" tkvs = Some (JObj g) →
  keep_transfer (JObj tkvs) =
    match assoc "Date" g, assoc "Price" g, assoc "InstrumentType" g,
          assoc "BureauOfConveyancesLink" g with
    | Some date, Some price, Some instrument, Some link =>
        match strptime date with
        | Ok dt =>
            if negb (Strptime.year dt =? 2024) then Ok false else
            match ge_int price 200000 with
            | Ok enough =>
                if negb enough then Ok false else
                if negb (eq_str "DEED" instrument) then Ok false else
                Ok (truthy link)
            | Raise _ => Ok false
            end
        | Raise _ => Ok false
        end
    | _, _, _, _ => Ok false
    end.
Proof.
  intros HG. pose proof (subscript_grantor _ _ HG) as Hs.
  unfold keep_transfer, all_keys_present, meets_criteria.
  rewrite !Hs. cbn [rbind contains subscript].
  destruct (assoc "Date" g) as [date|]; cbn; [|done].
  destruct (assoc "Price" g) as [price|]; cbn; [|done].
  destruct (assoc "InstrumentType" g) as [instrument|]; cbn; [|done].
  destruct (assoc "BureauOfConveyancesLink" g) as [link|]; cbn; [|done].
  destruct (strptime_outcome date) as [->|[->|[dt ->]]]; cbn; try done.
  destruct (negb (Strptime.year dt =? 2024)); [done|].
  destruct price; cbn; try done;
    repeat (match goal with
            | |- context [if ?t then _ else _] => destruct t
            end; cbn; try done).
Qed.

(** The filter finds a date of the year [y] exactly where the format reads
    one. *)
Lemma date_of_year date y :
  (∃ dt, strptime date = Ok dt ∧ Strptime.year dt = y) ↔
  (∃ s, date = JStr s ∧ timestamp s = Some y).
Proof.
  split.
  - intros (dt & Hdt & Hy). destruct date as [| | |s| |]; try done.
    exists s. split; [done|]. apply strptime_reads. eauto.
  - intros (s & -> & Hs). by apply strptime_reads.
Qed.

(** C6, as stated, fails in both directions. A timestamp with a fraction of
    the second is an ISO 8601 timestamp with offset, and the transfer that
    bears it meets the four conditions of the specification; the filter
    drops it. A date with a month, a day, an hour, a minute and a second of
    one digit, a small t and an offset without a colon is no ISO 8601
    timestamp; the filter keeps the transfer that bears it. *)
Theorem selection_is_not_iso8601 :
  (iso8601 "2024-06-15T00:00:00.000-10:00" = Some 2024 ∧
   qualifies (grantor_of "2024-06-15T00:00:00.000-10:00") ∧
   keep_transfer (JObj (transfer_of "2024-06-15T00:00:00.000-10:00")) = Ok false) ∧
  (iso8601 "2024-6-5t1:2:3+0000" = None ∧
   ¬ qualifies (grantor_of "2024-6-5t1:2:3+0000") ∧
   keep_transfer (JObj (transfer_of "2024-6-5t1:2:3+0000")) = Ok true).
Proof.
  split; (split; [by vm_compute|split; [|by vm_compute]]).
  - split; [|split; [|split]].
    + eexists. split; [reflexivity|]. by vm_compute.
    + exists 250000. split; [reflexivity|]. lia.
    + reflexivity.
    + eexists. split; reflexivity.
  - intros [(s & [= <-] & Hs) _]. vm_compute in Hs. discriminate Hs.
Qed.

(** C6, as amended: for a transfer with a Grantor record, the filter keeps
    the transfer exactly when the record meets the four conditions, the
    first of them with the date the format '%Y-%m-%dT%H:%M:%S%z' reads; it
    never raises on such a transfer, and a date that the format does not
    read (or that is not a string) makes it drop the transfer. *)
Theorem selection_predicate tkvs g :
  assoc "Grantor" tkvs = Some (JObj g) →
  (keep_transfer (JObj tkvs) = Ok true ↔ selects g) ∧
  (∃ kept, keep_transfer (JObj tkvs) = Ok kept) ∧
  (∀ date, assoc "Date" g = Some date →
           (∀ s, date = JStr s → timestamp s = None) →
           keep_transfer (JObj tkvs) = Ok false).
Proof.
  intros HG. rewrite (keep_transfer_unfold _ _ HG). unfold selects, qualifies_by.
  split; [split|split].
  - destruct (assoc "Date" g) as [date|]; [|done].
    destruct (assoc "Price" g) as [price|]; [|done].
    destruct (assoc "InstrumentType" g) as [instrument|]; [|done].
    destruct (assoc "BureauOfConveyancesLink" g) as [link|]; [|done].
    destruct (strptime date) as [dt|] eqn:Edate; [|done].
    destruct (Strptime.year dt =? 2024) eqn:Ey; cbn [negb]; [|done].
    destruct (ge_int price 200000) as [[|]|] eqn:Ep; cbn [negb]; try done.
    destruct (eq_str "DEED" instrument) eqn:Ei; cbn [negb]; [|done].
    intros [= Hl].
    apply Z.eqb_eq in Ey.
    destruct (proj1 (date_of_year date 2024)) as (s & -> & Hs); [eauto|].
    destruct price as [|[]|z| | |]; try done. cbn [ge_int] in Ep.
    destruct instrument as [| | |s'| |]; try done. cbn [eq_str] in Ei.
    apply String.eqb_eq in Ei as <-.
    split; [|split; [|split]].
    + by exists s.
    + exists z. split; [done|]. injection Ep as Ep. by apply Z.leb_le.
    + done.
    + by exists link.
  - intros ((s & -> & Hs) & (z & -> & Hz) & -> & (link & -> & Hl)).
    destruct (proj2 (date_of_year (JStr s) 2024)) as (dt & -> & ->); [eauto|].
    cbn. apply Z.leb_le in Hz. rewrite Hz. cbn. by rewrite Hl.
  - repeat (match goal with
            | |- context [match ?t with _ => _ end] => destruct t
            | |- context [if ?t then _ else _] => destruct t
            end; eauto).
  - intros date -> Hno.
    destruct (assoc "Price" g); [|done].
    destruct (assoc "InstrumentType" g); [|done].
    destruct (assoc "BureauOfConveyancesLink" g); [|done].
    destruct (strptime date) as [dt|] eqn:E; [|done].
    destruct (proj1 (date_of_year date (Strptime.year dt))) as (s & -> & Hs); [eauto|].
    rewrite (Hno s eq_refl) in Hs. discriminate Hs.
Qed.

(** The transfer of 15 June 2024 is kept, the one of 31 December 2023 is
    dropped. *)
Lemma selection_predicate_witness :
  let kvs := transfer_of "2024-06-15T00:00:00-10:00" in
  let g := grantor_of "2024-06-15T00:00:00-10:00" in
  keep_transfer (JObj kvs) = Ok true ∧
  keep_transfer (JObj (transfer_of "2023-12-31T23:59:59-10:00")) = Ok false ∧
  (keep_transfer (JObj kvs) = Ok true ↔ selects g) ∧
  (∃ kept, keep_transfer (JObj kvs) = Ok kept) ∧
  (∀ date, assoc "Date" g = Some date →
           (∀ s, date = JStr s → timestamp s = None) →
           keep_transfer (JObj kvs) = Ok false).
Proof.
  split; [by vm_compute|]. split; [by vm_compute|].
  apply (selection_predicate (transfer_of "2024-06-15T00:00:00-10:00")
           (grantor_of "2024-06-15T00:00:00-10:00")).
  reflexivity.
Defined.

End Selection.

(** ** A transfer without a Grantor *)

Section MissingGrantor.
Import Fetch.

Lemma filter_transfers_raises before transfer after e :
  Forall (fun t => ∃ kept, keep_transfer t = Ok kept) before →
  keep_transfer transfer = Raise e →
  filter_transfers (before ++ transfer :: after) = Raise e.
Proof.
  intros Hbefore Hraise.
  induction Hbefore as [|t before [kept Ht] _ IH]; cbn [app filter_transfers].
  - by rewrite Hraise.
  - rewrite Ht. cbn [rbind]. by rewrite IH.
Qed.

(** A Grantor record that lacks one of the four sub-fields is dropped
    without an exception. *)
Lemma missing_field_is_skipped tkvs g field :
  assoc "Grantor" tkvs = Some (JObj g) →
  field ∈ guarded_fields → assoc field g = None →
  keep_transfer (JObj tkvs) = Ok false.
Proof.
  intros HG Hin Hnone. rewrite (keep_transfer_unfold _ _ HG).
  unfold guarded_fields in Hin.
  repeat (apply elem_of_cons in Hin as [->|Hin]; [rewrite Hnone|]).
  - done.
  - by destruct (assoc "Date" g).
  - by destruct (assoc "Date" g), (assoc "Price" g).
  - by destruct (assoc "Date" g), (assoc "Price" g), (assoc "InstrumentType" g).
  - by apply elem_of_nil in Hin.
Qed.

(** C10: the presence check of the filter reads [transfer['Grantor']]
    without a guard. For a transfer that is a dict with no "Grantor" key the
    round of the loop raises [KeyError]; the transfer is not skipped, and
    the exception leaves [_extract_taxmapkey_fields] whenever the transfers
    before it in the list were handled. Only the absence of one of the four
    sub-fields of a Grantor record is a silent skip. *)
Theorem missing_grantor_is_not_skipped tkvs parcel before after :
  assoc "Grantor" tkvs = None →
  assoc "Transfers" parcel = Some (JArr (before ++ JObj tkvs :: after)) →
  Forall (fun t => ∃ kept, keep_transfer t = Ok kept) before →
  keep_transfer (JObj tkvs) = Raise (KeyError "Grantor") ∧
  _extract_taxmapkey_fields (JObj parcel) = Raise (KeyError "Grantor") ∧
  (∀ tkvs' g field,
     assoc "Grantor" tkvs' = Some (JObj g) →
     field ∈ guarded_fields → assoc field g = None →
     keep_transfer (JObj tkvs') = Ok false).
Proof.
  intros HG HT Hbefore.
  assert (keep_transfer (JObj tkvs) = Raise (KeyError "Grantor")) as Hkeep.
  { unfold keep_transfer. cbn [all_keys_present subscript]. by rewrite HG. }
  split; [exact Hkeep|]. split; [|apply missing_field_is_skipped].
  unfold _extract_taxmapkey_fields. cbn [get rbind contains subscript iter].
  rewrite HT. cbn [rbind]. rewrite bool_decide_true by eauto.
  cbn [iter rbind]. by rewrite (filter_transfers_raises _ _ _ _ Hbefore Hkeep).
Qed.

Lemma missing_grantor_is_not_skipped_witness :
  let tkvs := [("DocumentNumber", JStr "A-1")] in
  keep_transfer (JObj tkvs) = Raise (KeyError "Grantor") ∧
  _extract_taxmapkey_fields (JObj parcel_without_grantor) = Raise (KeyError "Grantor") ∧
  (∀ tkvs' g field,
     assoc "Grantor" tkvs' = Some (JObj g) →
     field ∈ guarded_fields → assoc field g = None →
     keep_transfer (JObj tkvs') = Ok false).
Proof.
  apply (missing_grantor_is_not_skipped [("DocumentNumber", JStr "A-1")]
           parcel_without_grantor
           [JObj (transfer_of "2024-06-15T00:00:00-10:00")] []).
  - reflexivity.
  - reflexivity.
  - repeat constructor. exists true. by vm_compute.
Defined.

(** The exception is not a [RequestException]: the round of the batch loop
    that meets such a parcel raises, and [fetch_results] with it. *)
Lemma missing_grantor_aborts_fetch :
  let post := fun _ _ : Z =>
    Payload (JObj [("data", JArr [JObj [("TaxMapKey", JObj parcel_without_grantor)]])]) in
  fst (fetch_results true post 0 2500 1000 (init true)) = Raise (KeyError "Grantor") ∧
  requests (snd (fetch_results true post 0 2500 1000 (init true))) = [(0, 1000)].
Proof. by vm_compute. Qed.

End MissingGrantor.

(** ** The flattened export *)

Section Flattening.
Import Csv.

Lemma rows_of_records records :
  rows (map JObj records) = (map row_of records, false).
Proof.
  induction records as [|fields records IH]; [done|].
  cbn [map rows]. unfold row at 1. cbn [get rbind]. by rewrite IH.
Qed.

Lemma clean_numeric s :
  float_ok (remove_commas s) = true → clean_conveyance_tax (JStr s) = remove_commas s.
Proof.
  intros Hnum. unfold clean_conveyance_tax. cbn [eq_str].
  destruct (String.eqb "ERROR" s) eqn:E1.
  { apply String.eqb_eq in E1 as <-. by vm_compute in Hnum. }
  destruct (String.eqb "Not found" s) eqn:E2.
  { apply String.eqb_eq in E2 as <-. by vm_compute in Hnum. }
  cbn [orb negb]. by rewrite Hnum.
Qed.

Lemma clean_not_numeric v : ¬ numeric v → clean_conveyance_tax v = "ERROR".
Proof.
  intros Hnot. unfold clean_conveyance_tax.
  destruct (negb _); [|done].
  destruct v as [| | |s| |]; try done.
  destruct (float_ok (remove_commas s)) eqn:E; [|done].
  destruct Hnot. by exists s.
Qed.

(** C8: every record yields one row under the header ParcelNumber, Date,
    Price, ConveyanceTax; a tax that is a numeric string is written with its
    commas removed ("1,234.50" as 1234.50); every other tax value, "Not
    found" and "ERROR" among them, is written as ERROR. *)
Theorem flattened_export :
  (∀ records,
     convert_to_csv (Parsed (JArr (map JObj records))) =
       Some (header :: map row_of records)) ∧
  (∀ s, float_ok (remove_commas s) = true →
        clean_conveyance_tax (JStr s) = remove_commas s) ∧
  (∀ v, ¬ numeric v → clean_conveyance_tax v = "ERROR") ∧
  clean_conveyance_tax (JStr "1,234.50") = "1234.50" ∧
  clean_conveyance_tax (JStr "Not found") = "ERROR" ∧
  clean_conveyance_tax (JStr "ERROR") = "ERROR".
Proof.
  split; [|split; [|split]].
  - intros records. unfold convert_to_csv. cbn [iter]. by rewrite rows_of_records.
  - apply clean_numeric.
  - apply clean_not_numeric.
  - by vm_compute.
Qed.

(** A record with the tax "1,234.50" and one whose document had no tax. *)
Lemma flattened_export_witness :
  convert_to_csv (Parsed (JArr (map JObj
    [error_record (JStr "1230040050000") (JStr "1-2-3-4-5") (JStr "2024-06-15T00:00:00-10:00")
       (JInt 250000) (JStr "https://boc.example/doc/1.pdf");
     [("ParcelNumber", JStr "1230040060000"); ("Date", JStr "2024-07-01T00:00:00-10:00");
      ("Price", JInt 300000); ("ConveyanceTax", JStr "1,234.50")];
     [("ParcelNumber", JStr "1230040070000"); ("Date", JStr "2024-08-01T00:00:00-10:00");
      ("Price", JInt 400000); ("ConveyanceTax", JStr "Not found")]]))) =
  Some [header;
        [JStr "1230040050000"; JStr "2024-06-15T00:00:00-10:00"; JInt 250000; JStr "ERROR"];
        [JStr "1230040060000"; JStr "2024-07-01T00:00:00-10:00"; JInt 300000; JStr "1234.50"];
        [JStr "1230040070000"; JStr "2024-08-01T00:00:00-10:00"; JInt 400000; JStr "ERROR"]].
Proof.
  rewrite (proj1 flattened_export). by vm_compute.
Defined.

Lemma lstrip_last m c :
  is_space c = false → ∃ m', lstrip (m ++ [c]) = (m' ++ [c])%list.
Proof.
  intros Hc. induction m as [|a m IH]; cbn [app lstrip].
  - rewrite Hc. by exists [].
  - destruct (is_space a); [exact IH|]. by exists (a :: m).
Qed.

Lemma strip_first c l :
  is_space c = false → ∃ l', strip (c :: l) = c :: l'.
Proof.
  intros Hc. unfold strip. cbn [lstrip]. rewrite Hc. cbn [rev].
  destruct (lstrip_last (rev l) c Hc) as [m' ->].
  rewrite rev_app_distr. cbn. eauto.
Qed.

(** [float] reads no string that starts with the letter E. *)
Lemma float_rejects_E s : float_ok (String "E" s) = false.
Proof.
  unfold float_ok. cbn [list_ascii_of_string].
  destruct (strip_first "E" (list_ascii_of_string s) eq_refl) as [l' ->].
  apply andb_false_intro2.
  cbn [List.filter].
  change (negb (is_underscore "E")) with true. cbv beta iota.
  apply orb_false_intro.
  - reflexivity.
  - unfold inf_or_nan, drop_sign.
    change (Ascii.eqb "E" "+" || Ascii.eqb "E" "-") with false. cbv beta iota.
    cbn [map string_of_list_ascii].
    change (lower "E") with "e"%char.
    reflexivity.
Qed.

(** The descriptive error string of the extractor is never numeric. *)
Lemma clean_access_error reason :
  clean_conveyance_tax (JStr ("Error accessing PDF: " +:+ reason)) = "ERROR".
Proof.
  apply clean_not_numeric. intros (s & [= <-] & Hnum).
  change ("Error accessing PDF: " +:+ reason)
    with (String "E" ("rror accessing PDF: " +:+ reason)) in Hnum.
  assert (∀ s', remove_commas (String "E" s') = String "E" (remove_commas s')) as HE
    by reflexivity.
  by rewrite HE, float_rejects_E in Hnum.
Qed.

End Flattening.

(** ** A transfer without a document link, in the enrichment step *)

Section Linkless.
Import Eff Process.

(** C9: a transfer not seen before whose Grantor has no document link, or a
    null or empty one, gets a record all the same: the record is appended
    (after a separator unless it is the first of the file) with ConveyanceTax
    "ERROR", the key is entered in [new_transfers], and the tax extractor is
    not called. The selection predicate of the fetch step would not have
    kept the transfer; the enrichment step does not apply it. *)
Theorem linkless_transfer_is_recorded extract parcel_number tmk tkvs g key st :
  default (JObj []) (assoc "Grantor" tkvs) = JObj g →
  truthy (default JNull (assoc "BureauOfConveyancesLink" g)) = false →
  hash_key parcel_number (default JNull (assoc "Date" g))
    (default JNull (assoc "Price" g))
    (default JNull (assoc "BureauOfConveyancesLink" g)) = Ok key →
  existing_transfers st !! key = None →
  new_transfers st !! key = None →
  let record :=
    error_record parcel_number tmk (default JNull (assoc "Date" g))
      (default JNull (assoc "Price" g))
      (default JNull (assoc "BureauOfConveyancesLink" g)) in
  process_transfer extract parcel_number tmk (JObj tkvs) st =
    (Ok tt,
     {| out := (out st ++ (if first_item st then [] else [Comma; Newline])
                       ++ [Object record])%list;
        existing_transfers := existing_transfers st;
        new_transfers := <[key := JObj record]> (new_transfers st);
        first_item := false;
        calls := calls st |}) ∧
  Fetch.keep_transfer (JObj tkvs) ≠ Ok true.
Proof.
  intros HG Hlink Hkey Hex Hnew record. split.
  - unfold process_transfer, bind, lift, gets. cbn [get]. rewrite HG. cbn [get].
    rewrite Hkey.
    rewrite Hex, bool_decide_false by (by intros [? [=]]).
    rewrite Hnew, bool_decide_false by (by intros [? [=]]).
    rewrite Hlink. unfold ret, set_new, append, set_first_item, modify.
    cbn [out existing_transfers new_transfers first_item calls].
    reflexivity.
  - destruct (assoc "Grantor" tkvs) as [grantor|] eqn:EG.
    + simpl in HG. subst grantor.
      rewrite (keep_transfer_unfold _ _ EG).
      destruct (assoc "Date" g); [|done].
      destruct (assoc "Price" g); [|done].
      destruct (assoc "InstrumentType" g); [|done].
      destruct (assoc "BureauOfConveyancesLink" g) as [link|]; [|done].
      simpl in Hlink. rewrite Hlink.
      repeat (match goal with
              | |- context [match ?t with _ => _ end] => destruct t
              | |- context [if ?t then _ else _] => destruct t
              end; try done).
    + unfold Fetch.keep_transfer. cbn [Fetch.all_keys_present subscript].
      by rewrite EG.
Qed.

(** A first transfer with a null link, into a file just opened. *)
Lemma linkless_transfer_is_recorded_witness :
  let g := [("Date", JStr "2024-06-15T00:00:00-10:00"); ("Price", JInt 250000);
            ("BureauOfConveyancesLink", JNull)] in
  let record :=
    error_record (JStr "1230040050000") (JStr "1-2-3-4-5")
      (JStr "2024-06-15T00:00:00-10:00") (JInt 250000) JNull in
  process_transfer fixed_tax (JStr "1230040050000") (JStr "1-2-3-4-5")
    (JObj [("Grantor", JObj g)]) empty_run =
    (Ok tt,
     {| out := [LBracket; Newline; Object record];
        existing_transfers := ∅;
        new_transfers :=
          {[ (HStr "1230040050000", HStr "2024-06-15T00:00:00-10:00", HNum 250000, HNone)
             := JObj record ]};
        first_item := false;
        calls := [] |}) ∧
  Fetch.keep_transfer (JObj [("Grantor", JObj g)]) ≠ Ok true.
Proof.
  intros g record.
  apply (linkless_transfer_is_recorded fixed_tax (JStr "1230040050000")
           (JStr "1-2-3-4-5") [("Grantor", JObj g)] g
           (HStr "1230040050000", HStr "2024-06-15T00:00:00-10:00", HNum 250000, HNone)
           empty_run); reflexivity.
Defined.

End Linkless.

(** ** Keys met and keys written *)

Section Fresh.
Import Process Dedup.

Lemma records_app (a b : list chunk) :
  records (a ++ b) = (records a ++ records b)%list.
Proof.
  induction a as [|c a IH]; [done|].
  destruct c; cbn [app records]; by rewrite ?IH.
Qed.

Lemma fresh_app known a b :
  fresh known (a ++ b) =
    (fresh known a ++ fresh (list_to_set (fresh known a) ∪ known) b)%list.
Proof.
  revert known. induction a as [|key a IH]; intros known; cbn [app fresh].
  - f_equal. set_solver.
  - destruct (decide (key ∈ known)); [apply IH|].
    cbn [app]. f_equal. rewrite IH. f_equal. f_equal.
    cbn [list_to_set]. set_solver.
Qed.

Lemma elem_of_fresh known keys key :
  key ∈ fresh known keys ↔ key ∈ keys ∧ key ∉ known.
Proof.
  revert known. induction keys as [|k keys IH]; intros known; cbn [fresh].
  - set_solver.
  - destruct (decide (k ∈ known)).
    + rewrite IH. set_solver.
    + rewrite elem_of_cons, IH. destruct (decide (key = k)); set_solver.
Qed.

Lemma NoDup_fresh known keys : NoDup (fresh known keys).
Proof.
  revert known. induction keys as [|k keys IH]; intros known; cbn [fresh].
  - constructor.
  - destruct (decide (k ∈ known)); [apply IH|].
    constructor; [|apply IH]. rewrite elem_of_fresh. set_solver.
Qed.

(** As many keys are added as there are distinct unknown keys. *)
Lemma length_fresh known keys :
  length (fresh known keys) = size (list_to_set keys ∖ known : gset RecordKey).
Proof.
  revert known. induction keys as [|k keys IH]; intros known; cbn [fresh list_to_set].
  - by rewrite difference_disjoint_L, size_empty by set_solver.
  - destruct (decide (k ∈ known)).
    + rewrite IH. f_equal. set_solver.
    + cbn [length]. rewrite IH.
      set (X := list_to_set keys ∖ ({[k]} ∪ known) : gset RecordKey).
      assert (size ({[k]} ∪ X) = (size ({[k]} : gset RecordKey) + size X)%nat) as HU.
      { apply size_union. subst X. set_solver. }
      rewrite size_singleton in HU. cbn in HU. rewrite <- HU. f_equal.
      subst X. apply set_eq. intros x. destruct (decide (x = k)); set_solver.
Qed.

Lemma extends_refl st : extends [] st st.
Proof.
  split; [done|]. split; [cbn; set_solver|].
  exists []. by rewrite app_nil_r.
Qed.

Lemma seen_extends keys st st' :
  extends keys st st' → seen st' = list_to_set (fresh (seen st) keys) ∪ seen st.
Proof. intros (HE & HN & _). unfold seen. rewrite HE, HN. set_solver. Qed.

Lemma extends_trans keys1 keys2 st st1 st2 :
  extends keys1 st st1 → extends keys2 st1 st2 → extends (keys1 ++ keys2) st st2.
Proof.
  intros H1 H2. pose proof (seen_extends _ _ _ H1) as Hseen.
  destruct H1 as (HE1 & HN1 & w1 & Ho1 & Hk1), H2 as (HE2 & HN2 & w2 & Ho2 & Hk2).
  rewrite Hseen in HN2, Hk2.
  split; [congruence|]. rewrite fresh_app. split.
  - rewrite HN2, HN1, list_to_set_app_L. set_solver.
  - exists (w1 ++ w2)%list. split.
    + by rewrite Ho2, Ho1, <- app_assoc.
    + by rewrite records_app, !fmap_app, Hk1, Hk2.
Qed.

End Fresh.

(** ** The loops of the enrichment step *)

Section Loops.
Import Eff Process Dedup.

Variable extract : nat → json → string.

Lemma transfer_key_parcel parcel_number transfer key :
  transfer_key parcel_number transfer = Ok key →
  hash parcel_number = Ok (key_parcel key).
Proof.
  unfold transfer_key, hash_key.
  destruct (get transfer _ _) as [grantor|]; [|done]. cbn [rbind].
  destruct (get grantor "Date" _) as [date|]; [|done]. cbn [rbind].
  destruct (get grantor "Price" _) as [price|]; [|done]. cbn [rbind].
  destruct (get grantor "BureauOfConveyancesLink" _) as [link|]; [|done]. cbn [rbind].
  destruct (hash parcel_number); [|done]. cbn [rbind].
  destruct (hash date); [|done]. cbn [rbind].
  destruct (hash price); [|done]. cbn [rbind].
  destruct (hash link); [|done]. cbn [rbind].
  by intros [= <-].
Qed.

(** One transfer: the round raises before it has changed anything, or it
    ends with the state extended by the transfer's key. *)
Lemma process_transfer_extends parcel_number tmk transfer st r st' :
  process_transfer extract parcel_number tmk transfer st = (r, st') →
  (∃ e, r = Raise e ∧ st' = st ∧ transfer_key parcel_number transfer = Raise e) ∨
  (∃ key, r = Ok tt ∧ transfer_key parcel_number transfer = Ok key ∧
          extends [key] st st').
Proof.
  unfold process_transfer, transfer_key, bind, lift, gets.
  destruct (get transfer _ _) as [grantor|e]; cbn [rbind];
    [|intros [= <- <-]; left; eauto].
  destruct (get grantor "Date" _) as [date|e]; cbn [rbind];
    [|intros [= <- <-]; left; eauto].
  destruct (get grantor "Price" _) as [price|e]; cbn [rbind];
    [|intros [= <- <-]; left; eauto].
  destruct (get grantor "BureauOfConveyancesLink" _) as [link|e]; cbn [rbind];
    [|intros [= <- <-]; left; eauto].
  destruct (hash_key parcel_number date price link) as [key|e] eqn:Ekey;
    [|intros [= <- <-]; left; eauto].
  intros Hrun. right. exists key.
  case_bool_decide as Hex.
  { injection Hrun as <- <-. split; [done|]. split; [done|].
    assert (fresh (seen st) [key] = []) as Hfresh.
    { cbn [fresh]. rewrite decide_True; [done|].
      unfold seen. apply elem_of_union_l. by apply elem_of_dom. }
    split; [done|]. rewrite Hfresh. split; [cbn; set_solver|].
    exists []. by rewrite app_nil_r. }
  case_bool_decide as Hnew.
  { injection Hrun as <- <-. split; [done|]. split; [done|].
    assert (fresh (seen st) [key] = []) as Hfresh.
    { cbn [fresh]. rewrite decide_True; [done|].
      unfold seen. apply elem_of_union_r. by apply elem_of_dom. }
    split; [done|]. rewrite Hfresh. split; [cbn; set_solver|].
    exists []. by rewrite app_nil_r. }
  assert (fresh (seen st) [key] = [key]) as Hfresh.
  { cbn [fresh]. rewrite decide_False; [done|].
    unfold seen. rewrite elem_of_union, !elem_of_dom. tauto. }
  assert (∀ tax, record_key
            [("ParcelNumber", parcel_number); ("TMK", tmk); ("Date", date);
             ("Price", price); ("BureauOfConveyancesLink", link);
             ("ConveyanceTax", JStr tax)] = Some key) as Hrec.
  { intros tax. unfold record_key, item_key. cbn. by rewrite Ekey. }
  destruct (truthy link);
    unfold ret, record_call, set_new, append, set_first_item, modify in Hrun;
    cbn [out existing_transfers new_transfers first_item calls] in Hrun;
    injection Hrun as <- <-;
    (split; [done|]; split; [done|]; split; [done|]; rewrite Hfresh;
     cbn [out existing_transfers new_transfers first_item calls];
     split; [rewrite dom_insert_L; cbn; set_solver|];
     eexists; split; [reflexivity|];
     rewrite records_app; destruct (first_item st); cbn; by rewrite Hrec).
Qed.

Lemma transfers_extend parcel_number tmk transfers st r st' :
  for_each transfers (process_transfer extract parcel_number tmk) st = (r, st') →
  ∃ keys,
    extends keys st st' ∧
    Forall (fun key => hash parcel_number = Ok (key_parcel key)) keys ∧
    (r = Ok tt → map_res (transfer_key parcel_number) transfers = Ok keys).
Proof.
  revert st. induction transfers as [|transfer transfers IH]; intros st; cbn [for_each].
  - intros [= <- <-]. exists []. split; [apply extends_refl|]. by split.
  - unfold bind at 1.
    destruct (process_transfer _ _ _ transfer st) as [r1 st1] eqn:E1.
    destruct (process_transfer_extends _ _ _ _ _ _ E1)
      as [(e & -> & -> & _)|(key & -> & Hkey & Hext)].
    + intros [= <- <-]. exists []. split; [apply extends_refl|]. by split.
    + intros E2. destruct (IH _ E2) as (keys & Hext' & Hall & Hok).
      exists (key :: keys). split; [|split].
      * apply (extends_trans [key] keys _ _ _ Hext Hext').
      * constructor; [|done]. by apply transfer_key_parcel in Hkey.
      * intros Hr. cbn [map_res]. by rewrite Hkey, (Hok Hr).
Qed.

Lemma parcel_number_is_string parcel_number tmk h :
  convert_to_tmk_format parcel_number = Ok tmk → hash parcel_number = Ok h →
  ∃ s, h = HStr s.
Proof. destruct parcel_number; try done. intros _ [= <-]. eauto. Qed.

Lemma taxmapkey_extends taxmapkey st r st' :
  process_taxmapkey extract taxmapkey st = (r, st') →
  ∃ keys,
    extends keys st st' ∧
    Forall (fun key => ∃ s, key_parcel key = HStr s) keys ∧
    (r = Ok tt → parcel_keys taxmapkey = Ok keys).
Proof.
  unfold process_taxmapkey, parcel_keys, bind, lift.
  assert (∀ e : pyexn, (Raise e : res unit, st) = (r, st') →
    ∃ keys, extends keys st st' ∧
            Forall (fun key => ∃ s, key_parcel key = HStr s) keys ∧
            (r = Ok tt → (Raise e : res (list RecordKey)) = Ok keys)) as Hraise.
  { intros e [= <- <-]. exists []. split; [apply extends_refl|]. by split. }
  destruct (get taxmapkey "ParcelNumber" _) as [parcel_number|e]; cbn [rbind]; [|apply Hraise].
  destruct (convert_to_tmk_format parcel_number) as [tmk|e] eqn:Etmk; cbn [rbind];
    [|apply Hraise].
  destruct (get taxmapkey "Transfers" _) as [transfers_value|e]; cbn [rbind]; [|apply Hraise].
  destruct (iter transfers_value) as [transfers|e]; cbn [rbind]; [|apply Hraise].
  intros E. destruct (transfers_extend _ _ _ _ _ _ E) as (keys & Hext & Hall & Hok).
  exists keys. split; [done|]. split; [|done].
  eapply List.Forall_impl; [|exact Hall]. intros key Hkey. cbn beta in Hkey.
  destruct (parcel_number_is_string _ _ _ Etmk Hkey) as [s Hs]. eauto.
Qed.

Lemma taxmapkeys_extend taxmapkeys st r st' :
  for_each taxmapkeys (process_taxmapkey extract) st = (r, st') →
  ∃ keys,
    extends keys st st' ∧
    Forall (fun key => ∃ s, key_parcel key = HStr s) keys ∧
    (r = Ok tt → ∃ keyss, map_res parcel_keys taxmapkeys = Ok keyss ∧ keys = concat keyss).
Proof.
  revert st. induction taxmapkeys as [|taxmapkey taxmapkeys IH]; intros st; cbn [for_each].
  - intros [= <- <-]. exists []. split; [apply extends_refl|]. split; [done|].
    intros _. by exists [].
  - unfold bind at 1.
    destruct (process_taxmapkey _ taxmapkey st) as [[[]|e] st1] eqn:E1.
    + destruct (taxmapkey_extends _ _ _ _ E1) as (keys1 & Hext1 & Hall1 & Hok1).
      intros E2. destruct (IH _ E2) as (keys2 & Hext2 & Hall2 & Hok2).
      exists (keys1 ++ keys2)%list. split; [|split].
      * by apply (extends_trans keys1 keys2 _ st1).
      * by apply Forall_app.
      * intros Hr. destruct (Hok2 Hr) as (keyss & Hkeyss & ->).
        exists (keys1 :: keyss). cbn [map_res]. by rewrite (Hok1 eq_refl), Hkeyss.
    + intros [= <- <-].
      destruct (taxmapkey_extends _ _ _ _ E1) as (keys1 & Hext1 & Hall1 & _).
      exists keys1. by split.
Qed.

End Loops.

(** ** The parser of output files *)

Section Parsing.

Lemma parse_extend fuel :
  (∀ ts v rest, parse_value fuel ts = Some (v, rest) →
     ∀ fuel' extra, (fuel ≤ fuel')%nat →
     parse_value fuel' (ts ++ extra) = Some (v, (rest ++ extra)%list)) ∧
  (∀ ts acc v rest, parse_elements fuel ts acc = Some (v, rest) →
     ∀ fuel' extra, (fuel ≤ fuel')%nat →
     parse_elements fuel' (ts ++ extra) acc = Some (v, (rest ++ extra)%list)).
Proof.
  induction fuel as [|fuel [IHv IHe]]; [by split|]. split.
  - intros ts v rest H [|fuel'] extra Hle; [lia|].
    cbn [parse_value] in *.
    destruct ts as [|[] ts]; try done.
    + destruct ts as [|c ts].
      * destruct fuel; [done|]. cbn in H. by destruct fuel.
      * destruct c; cbn [app];
          try (apply (IHe _ _ _ _ H fuel' extra); lia).
        by injection H as <- <-.
    + by injection H as <- <-.
  - intros ts acc v rest H [|fuel'] extra Hle; [lia|].
    cbn [parse_elements] in *.
    destruct (parse_value fuel ts) as [[v1 r1]|] eqn:E1; [|done].
    rewrite (IHv _ _ _ E1 fuel' extra) by lia.
    destruct r1 as [|[] r1]; try done; cbn [app].
    + by injection H as <- <-.
    + apply (IHe _ _ _ _ H fuel' extra). lia.
Qed.

Lemma parse_value_mono fuel fuel' ts v rest :
  parse_value fuel ts = Some (v, rest) → (fuel ≤ fuel')%nat →
  parse_value fuel' ts = Some (v, rest).
Proof.
  intros H Hle. pose proof (proj1 (parse_extend _) _ _ _ H fuel' [] Hle) as H'.
  by rewrite !app_nil_r in H'.
Qed.

Lemma parse_elements_mono fuel fuel' ts acc v rest :
  parse_elements fuel ts acc = Some (v, rest) → (fuel ≤ fuel')%nat →
  parse_elements fuel' ts acc = Some (v, rest).
Proof.
  intros H Hle. pose proof (proj2 (parse_extend _) _ _ _ _ H fuel' [] Hle) as H'.
  by rewrite !app_nil_r in H'.
Qed.

Lemma parse_elements_S fuel ts acc :
  parse_elements (S fuel) ts acc =
    match parse_value fuel ts with
    | Some (v, Comma :: rest) => parse_elements fuel rest (acc ++ [v])
    | Some (v, RBracket :: rest) => Some (JArr (acc ++ [v]), rest)
    | _ => None
    end.
Proof. done. Qed.

(** A successful parse needs no more fuel than twice the chunks it reads. *)
Lemma parse_bound fuel :
  (∀ ts v rest, parse_value fuel ts = Some (v, rest) →
     ∃ c, length ts = (c + length rest)%nat ∧ (1 ≤ c)%nat ∧
          parse_value (2 * c) ts = Some (v, rest)) ∧
  (∀ ts acc v rest, parse_elements fuel ts acc = Some (v, rest) →
     ∃ c, length ts = (c + length rest)%nat ∧ (1 ≤ c)%nat ∧
          parse_elements (2 * c) ts acc = Some (v, rest)).
Proof.
  induction fuel as [|fuel [IHv IHe]]; [by split|]. split.
  - intros ts v rest H. cbn [parse_value] in H.
    destruct ts as [|[] ts]; try done.
    + destruct ts as [|c ts].
      * destruct fuel; [done|]. cbn in H. by destruct fuel.
      * assert (∀ ts', parse_elements fuel ts' [] = Some (v, rest) →
                  (∀ fuel', parse_value (S fuel') (LBracket :: ts') =
                            parse_elements fuel' ts' []) →
                  ∃ c, length (LBracket :: ts') = (c + length rest)%nat ∧ (1 ≤ c)%nat ∧
                       parse_value (2 * c) (LBracket :: ts') = Some (v, rest)) as Hgo.
        { intros ts' H' Hshape. apply IHe in H' as (c' & Hlen & Hc & Hp).
          exists (S c'). split; [cbn; lia|]. split; [lia|].
          replace (2 * S c')%nat with (S (S (2 * c'))) by lia.
          rewrite Hshape. apply (parse_elements_mono _ _ _ _ _ _ Hp). lia. }
        destruct c; try (apply Hgo; [exact H|done]).
        injection H as <- <-. exists 2%nat. cbn. split; [lia|]. split; [lia|done].
    + injection H as <- <-. exists 1%nat. cbn. split; [lia|]. split; [lia|done].
  - intros ts acc v rest H. cbn [parse_elements] in H.
    destruct (parse_value fuel ts) as [[v1 r1]|] eqn:E1; [|done].
    apply IHv in E1 as (c1 & Hlen1 & Hc1 & Hp1).
    destruct r1 as [|[] r1]; try done.
    + injection H as <- <-. exists (S c1). split; [cbn in *; lia|]. split; [lia|].
      replace (2 * S c1)%nat with (S (S (2 * c1))) by lia. rewrite parse_elements_S.
      by rewrite (parse_value_mono _ (S (2 * c1)) _ _ _ Hp1) by lia.
    + apply IHe in H as (c2 & Hlen2 & Hc2 & Hp2).
      exists (c1 + 1 + c2)%nat. split; [cbn in *; lia|]. split; [lia|].
      replace (2 * (c1 + 1 + c2))%nat with (S (S (2 * (c1 + c2)))) by lia.
      rewrite parse_elements_S.
      rewrite (parse_value_mono _ (S (2 * (c1 + c2))) _ _ _ Hp1) by lia.
      apply (parse_elements_mono _ _ _ _ _ _ Hp2). lia.
Qed.

(** [json_load] does not depend on the fuel it gives the parser: it returns
    the value the chunks of the file, white space apart, are a parse of. *)
Lemma json_load_spec f v :
  json_load f = Some v ↔
  ∃ fuel, parse_value fuel (List.filter (fun c => negb (is_newline c)) f) = Some (v, []).
Proof.
  unfold json_load. set (ts := List.filter _ f). split.
  - destruct (parse_value _ ts) as [[v' [|? ?]]|] eqn:E; try done.
    intros [= <-]. eauto.
  - intros [fuel H]. apply (proj1 (parse_bound _)) in H as (c & Hlen & _ & H).
    cbn [length] in Hlen.
    by rewrite (parse_value_mono _ (S (2 * length ts)) _ _ _ H) by lia.
Qed.

(** What follows a complete value makes the file unreadable. *)
Lemma json_load_extra f v extra :
  json_load f = Some v →
  List.filter (fun c => negb (is_newline c)) extra ≠ [] →
  json_load (f ++ extra) = None.
Proof.
  intros [fuel H]%json_load_spec Hextra.
  destruct (json_load (f ++ extra)) as [v'|] eqn:E; [|done].
  apply json_load_spec in E as [fuel' H']. rewrite List.filter_app in H'.
  pose proof (proj1 (parse_extend _) _ _ _ H (fuel + fuel')%nat
                (List.filter (fun c => negb (is_newline c)) extra)) as H1.
  pose proof (parse_value_mono _ (fuel + fuel')%nat _ _ _ H') as H2.
  rewrite H1 in H2 by lia. specialize (H2 ltac:(lia)).
  injection H2 as _ H2. cbn in H2. done.
Qed.

End Parsing.

(** ** Reading the output file back *)

Section Loading.
Import Eff Process Dedup.

(** What [json.load] returns holds the objects of the chunks it read. *)
Lemma parse_records fuel :
  (∀ ts v rest, parse_value fuel ts = Some (v, rest) →
     records ts = (leaves v ++ records rest)%list) ∧
  (∀ ts acc v rest, parse_elements fuel ts acc = Some (v, rest) →
     ∃ l, v = JArr (acc ++ l) ∧
          records ts = (flat_map leaves l ++ records rest)%list).
Proof.
  induction fuel as [|fuel [IHv IHe]]; [by split|]. split.
  - intros ts v rest. cbn [parse_value].
    destruct ts as [|[] ts]; try done.
    + destruct ts as [|c ts]; [intros H; apply IHe in H|].
      * destruct H as (l & -> & H). by cbn in *.
      * destruct c; try (intros H; apply IHe in H as (l & -> & H); by cbn in * ).
        by intros [= <- <-].
    + by intros [= <- <-].
  - intros ts acc v rest. cbn [parse_elements].
    destruct (parse_value fuel ts) as [[v1 [|c r1]]|] eqn:E1; try done.
    apply IHv in E1. destruct c; try done.
    + intros [= <- <-]. exists [v1]. split; [done|].
      cbn [flat_map]. rewrite E1, app_nil_r. done.
    + intros H. apply IHe in H as (l & -> & H). exists (v1 :: l). split.
      * by rewrite <- app_assoc.
      * cbn [flat_map]. rewrite E1. cbn [records]. rewrite H. by rewrite <- app_assoc.
Qed.

Lemma records_without_newlines f :
  records (List.filter (fun c => negb (is_newline c)) f) = records f.
Proof.
  induction f as [|c f IH]; [done|]. destruct c; cbn; by rewrite ?IH.
Qed.

Lemma json_load_records f v : json_load f = Some v → records f = leaves v.
Proof.
  unfold json_load.
  destruct (parse_value _ _) as [[v' [|? ?]]|] eqn:E; try done.
  intros [= <-]. apply (proj1 (parse_records _)) in E.
  rewrite records_without_newlines in E. by rewrite E, app_nil_r.
Qed.

(** An item that has a key is an object, and the key is that of its fields. *)
Lemma item_key_object item key :
  item_key item = Ok key → ∃ fields, item = JObj fields ∧ record_key fields = Some key.
Proof.
  destruct item as [| | | | |fields]; try done.
  intros H. exists fields. split; [done|]. unfold record_key. by rewrite H.
Qed.

Lemma items_are_records items keys :
  map_res item_key items = Ok keys →
  omap record_key (flat_map leaves items) = keys ∧
  length (flat_map leaves items) = length items.
Proof.
  revert keys. induction items as [|item items IH]; intros keys; cbn [map_res].
  - by intros [= <-].
  - destruct (item_key item) as [key|] eqn:E; [|done]. cbn [rbind].
    destruct (map_res item_key items) as [keys'|]; [|done]. cbn [rbind].
    intros [= <-]. destruct (IH _ eq_refl) as [IH1 IH2].
    apply item_key_object in E as (fields & -> & E).
    cbn [flat_map leaves app omap length]. unfold omap in *. cbn.
    by rewrite E, IH1, IH2.
Qed.

(** The loop that indexes the records read. *)
Lemma index_items items st r st' :
  for_each items (fun item =>
    do transfer_key <- lift (item_key item); set_existing transfer_key item) st = (r, st') →
  out st' = out st ∧ new_transfers st' = new_transfers st ∧
  (r = Ok tt → ∃ keys, map_res item_key items = Ok keys ∧
     dom (existing_transfers st') = dom (existing_transfers st) ∪ list_to_set keys).
Proof.
  revert st. induction items as [|item items IH]; intros st; cbn [for_each].
  - intros [= <- <-]. split; [done|]. split; [done|]. intros _. exists [].
    split; [done|]. cbn. set_solver.
  - unfold bind at 1. unfold bind at 1. unfold lift at 1.
    destruct (item_key item) as [key|e] eqn:Ekey; [|by intros [= <- <-]].
    cbn [set_existing modify]. intros E. apply IH in E as (Ho & Hn & Hok).
    cbn [out new_transfers existing_transfers] in *.
    split; [done|]. split; [done|]. intros Hr.
    destruct (Hok Hr) as (keys & Hkeys & Hdom). exists (key :: keys).
    cbn [map_res]. rewrite Ekey, Hkeys. split; [done|].
    rewrite Hdom, dom_insert_L. cbn. set_solver.
Qed.

End Loading.

(** ** One run of the enrichment step *)

Section Run.
Import Eff Process Dedup.

Variable extract : nat → json → string.

Lemma load_existing_spec output r st :
  load_existing output (initial output) = (r, st) →
  out st = base output ∧ new_transfers st = ∅ ∧
  (r = Ok tt →
     (∀ key, key ∈ file_keys (base output) →
        key ∈ dom (existing_transfers st) ∨ key_parcel key = HNone) ∧
     (∀ items, output ≫= json_load = Some (JArr items) →
        dom (existing_transfers st) = list_to_set (file_keys (base output)) ∧
        length (records (base output)) = length items)).
Proof.
  unfold load_existing, base.
  destruct (output ≫= json_load) as [v|] eqn:Eload.
  - destruct output as [f|]; [|done]. cbn in Eload.
    pose proof (json_load_records _ _ Eload) as Hrec.
    unfold bind at 1, lift at 1.
    destruct (iter v) as [items|e] eqn:Eiter; [|by intros [= <- <-]].
    intros E. apply index_items in E as (Ho & Hn & Hok).
    split; [done|]. split; [done|]. intros Hr.
    destruct (Hok Hr) as (keys & Hkeys & Hdom).
    cbn [initial existing_transfers] in Hdom. rewrite dom_empty_L in Hdom.
    change (default [] (Some f)) with f.
    destruct v as [| | |s|l|kvs]; try done.
    + injection Eiter as <-. destruct s; [|by cbn in Hkeys].
      cbn in Hrec. unfold file_keys. rewrite Hrec.
      split; [by intros key Hin%elem_of_nil|]. done.
    + injection Eiter as <-.
      destruct (items_are_records _ _ Hkeys) as [Hfk Hlen].
      cbn [leaves] in Hrec. unfold file_keys. rewrite Hrec, Hfk. split.
      * intros key Hin. left. rewrite Hdom. set_solver.
      * intros items' [= <-]. split; [|done]. rewrite Hdom. set_solver.
    + injection Eiter as <-. destruct kvs; [|by cbn in Hkeys].
      cbn in Hrec. unfold file_keys. rewrite Hrec.
      split; [|done]. intros key Hin. right.
      cbn in Hin. apply list_elem_of_singleton in Hin as ->. done.
  - intros [= <- <-]. cbn. split; [done|]. split; [done|]. intros _.
    split; [|done]. unfold file_keys. cbn. by intros key Hin%elem_of_nil.
Qed.

Lemma body_spec input output r st :
  body extract input output (initial output) = (r, st) →
  ∃ keys (known : gset RecordKey) written,
    out st = (base output ++ written)%list ∧
    record_key <$> records written = Some <$> fresh known keys ∧
    Forall (fun key => ∃ s, key_parcel key = HStr s) keys ∧
    (∀ key, key ∈ file_keys (base output) → key ∈ known ∨ key_parcel key = HNone) ∧
    (r = Ok tt →
       (∃ data, input = Parsed data ∧ input_keys data = Ok keys) ∧
       (∀ items, output ≫= json_load = Some (JArr items) →
          known = list_to_set (file_keys (base output)) ∧
          length (records (base output)) = length items) ∧
       (∃ before, written = (before ++ [Newline; RBracket])%list)).
Proof.
  assert (∀ st1 : state, out st1 = base output → ∀ e : pyexn,
    ∃ keys (known : gset RecordKey) written,
      out st1 = (base output ++ written)%list ∧
      record_key <$> records written = Some <$> fresh known keys ∧
      Forall (fun key => ∃ s, key_parcel key = HStr s) keys ∧
      (∀ key, key ∈ file_keys (base output) → key ∈ known ∨ key_parcel key = HNone) ∧
      ((Raise e : res unit) = Ok tt →
         (∃ data, input = Parsed data ∧ input_keys data = Ok keys) ∧
         (∀ items, output ≫= json_load = Some (JArr items) →
            known = list_to_set (file_keys (base output)) ∧
            length (records (base output)) = length items) ∧
         (∃ before, written = (before ++ [Newline; RBracket])%list))) as Hstop.
  { intros st1 Ho e. exists [], (list_to_set (file_keys (base output))), [].
    rewrite app_nil_r. split; [done|]. split; [done|]. split; [done|].
    split; [|done]. intros key Hin. left. set_solver. }
  unfold body. unfold bind at 1.
  destruct (load_existing output (initial output)) as [[[]|e] st1] eqn:Eload;
    apply load_existing_spec in Eload as (Ho1 & Hn1 & Hok1);
    [|intros [= <- <-]; by apply Hstop].
  destruct (Hok1 eq_refl) as [Hknown Hitems]. clear Hok1.
  unfold bind at 1.
  destruct input as [| |data]; cbn [read_input lift ret];
    [intros [= <- <-]; by apply Hstop | intros [= <- <-]; by apply Hstop |].
  unfold bind at 1, gets at 1. unfold bind at 1. cbn [set_first_item modify].
  set (st1' := {| out := out st1; existing_transfers := existing_transfers st1;
                  new_transfers := new_transfers st1; first_item := _;
                  calls := calls st1 |}).
  unfold bind at 1, lift at 1.
  destruct (iter data) as [taxmapkeys|e] eqn:Eiter; [|intros [= <- <-]; by apply Hstop].
  unfold bind at 1.
  destruct (for_each taxmapkeys _ st1') as [r2 st2] eqn:Eloop.
  apply taxmapkeys_extend in Eloop as (keys & Hext & Hall & Hok2).
  assert (seen st1' = dom (existing_transfers st1)) as Hseen.
  { unfold seen. cbn. rewrite Hn1, dom_empty_L. set_solver. }
  destruct Hext as (_ & _ & written & Ho2 & Hkeys). rewrite Hseen in Hkeys.
  subst st1'. cbn [out] in Ho2.
  destruct r2 as [[]|e].
  - intros [= <- <-]. cbn [out].
    exists keys, (dom (existing_transfers st1)), (written ++ [Newline; RBracket])%list.
    split; [by rewrite Ho2, Ho1, <- app_assoc|].
    split; [by rewrite records_app, app_nil_r|].
    split; [done|]. split; [done|]. intros _. split; [|split; [done|by exists written]].
    exists data. split; [done|].
    destruct (Hok2 eq_refl) as (keyss & Hkeyss & ->).
    unfold input_keys. by rewrite Eiter; cbn [rbind]; rewrite Hkeyss.
  - intros [= <- <-].
    exists keys, (dom (existing_transfers st1)), written.
    split; [by rewrite Ho2, Ho1|]. done.
Qed.

End Run.

(** ** Deduplication across runs *)

Section Deduplication.
Import Eff Process Dedup.

Lemma holders_NoDup (l : list (list (string * json))) :
  (∀ key, (length (filter (fun fields => record_key fields = Some key) l) ≤ 1)%nat)
  ↔ NoDup (omap record_key l).
Proof.
  induction l as [|fields l [IH1 IH2]].
  - split; [constructor|]. intros _ key. cbn. lia.
  - change (omap record_key (fields :: l))
      with (match record_key fields with
            | Some key => key :: omap record_key l
            | None => omap record_key l
            end).
    destruct (record_key fields) as [key0|] eqn:E0.
    + split.
      * intros H. apply list.NoDup_cons. split.
        -- intros Hin. apply list_elem_of_omap in Hin as (fields' & Hin & E').
           specialize (H key0). rewrite filter_cons_True in H by done.
           cbn [length] in H.
           assert (fields' ∈ filter (fun fields => record_key fields = Some key0) l)
             as Hf by (by apply list_elem_of_filter).
           destruct (filter _ l); [by apply elem_of_nil in Hf | cbn in H; lia].
        -- apply IH1. intros key. specialize (H key).
           destruct (decide (Some key0 = Some key)) as [Heq|Hne].
           ++ rewrite filter_cons_True in H by (by rewrite E0). cbn in H. lia.
           ++ by rewrite filter_cons_False in H by (by rewrite E0).
      * intros [Hnot H]%list.NoDup_cons key. specialize (IH2 H).
        destruct (decide (Some key0 = Some key)) as [[= <-]|Hne].
        -- rewrite filter_cons_True by done. cbn [length].
           destruct (filter _ l) as [|fields' ?] eqn:Ef; [cbn; lia|].
           destruct Hnot. apply list_elem_of_omap. exists fields'.
           assert (fields' ∈ filter (fun fields => record_key fields = Some key0) l)
             as Hf by (rewrite Ef; left).
           by apply list_elem_of_filter in Hf as [? ?].
        -- rewrite filter_cons_False by (by rewrite E0). apply IH2.
    + split.
      * intros H. apply IH1. intros key. specialize (H key).
        by rewrite filter_cons_False in H by (by rewrite E0).
      * intros H key. rewrite filter_cons_False by (by rewrite E0). by apply IH2.
Qed.

Lemma at_most_one_NoDup f : at_most_one (Some f) ↔ NoDup (file_keys f).
Proof. apply holders_NoDup. Qed.

(** The file after a run: what the body wrote, and a closing bracket when
    the body raised. *)
Lemma process_housing_data_out extract input output :
  ∃ r st tail,
    body extract input output (initial output) = (r, st) ∧
    out (process_housing_data extract input output) = (out st ++ tail)%list ∧
    records tail = [].
Proof.
  unfold process_housing_data. fold (initial output).
  destruct (body extract input output (initial output)) as [[[]|e] st] eqn:E.
  - exists (Ok tt), st, []. by rewrite app_nil_r.
  - exists (Raise e), st.
    destruct e; (by exists [Newline; RBracket]) || (exists []; by rewrite app_nil_r).
Qed.

Lemma run_keeps_at_most_one extract input output :
  at_most_one output →
  at_most_one (Some (out (process_housing_data extract input output))).
Proof.
  intros Hinv.
  destruct (process_housing_data_out extract input output)
    as (r & st & tail & Hbody & -> & Htail).
  apply body_spec in Hbody
    as (keys & known & written & -> & Hkeys & Hstr & Hknown & _).
  apply at_most_one_NoDup. unfold file_keys.
  rewrite !records_app, Htail, app_nil_r, omap_app.
  assert (omap record_key (records written) = fresh known keys) as ->.
  { revert Hkeys. generalize (fresh known keys) (records written).
    intros l1 l2. revert l1. induction l2 as [|x l2 IH]; intros [|k l1]; try done.
    cbn. intros [= -> H]. unfold omap in *. cbn. by rewrite (IH _ H). }
  apply list.NoDup_app. split; [|split].
  - unfold base. destruct (output ≫= json_load) eqn:E; [|constructor].
    destruct output as [f|]; [|done]. by apply at_most_one_NoDup.
  - intros key Hin Hfresh. apply elem_of_fresh in Hfresh as [Hk Hnot].
    rewrite List.Forall_forall in Hstr.
    destruct (Hstr key) as [s Hs]; [by apply list_elem_of_In|].
    destruct (Hknown key Hin) as [?|Hnone]; [done|congruence].
  - apply NoDup_fresh.
Qed.

(** A transfer whose key is known, from the file or from this run, is not
    written again. *)
Lemma known_transfer_is_skipped extract parcel_number tmk transfer key st :
  transfer_key parcel_number transfer = Ok key → key ∈ seen st →
  process_transfer extract parcel_number tmk transfer st = (Ok tt, st).
Proof.
  intros Hkey Hseen.
  destruct (process_transfer extract parcel_number tmk transfer st) as [r st'] eqn:E.
  revert E Hkey. unfold process_transfer, transfer_key, bind, lift, gets.
  destruct (get transfer _ _) as [grantor|]; cbn [rbind]; [|done].
  destruct (get grantor "Date" _) as [date|]; cbn [rbind]; [|done].
  destruct (get grantor "Price" _) as [price|]; cbn [rbind]; [|done].
  destruct (get grantor "BureauOfConveyancesLink" _) as [link|]; cbn [rbind]; [|done].
  intros E Hk. rewrite Hk in E. revert E.
  case_bool_decide as Hex; [by intros [= <- <-]|].
  case_bool_decide as Hnew; [by intros [= <- <-]|].
  unfold seen in Hseen. rewrite elem_of_union, !elem_of_dom in Hseen. tauto.
Qed.

(** C1: whatever the output file holds at most once per key it still holds
    at most once per key after any number of runs against it, each with any
    input and any answers of the extractor; in particular from an absent
    file. In a run, a transfer whose key is among the records loaded at the
    start or among those written earlier in the run is passed over. *)
Theorem one_record_per_key (rs : list ((nat → json → string) * input_file))
    (output : file) :
  at_most_one output →
  at_most_one (runs rs output) ∧
  (∀ extract parcel_number tmk transfer key st,
     transfer_key parcel_number transfer = Ok key →
     is_Some (existing_transfers st !! key) ∨ is_Some (new_transfers st !! key) →
     process_transfer extract parcel_number tmk transfer st = (Ok tt, st)).
Proof.
  intros Hinv. split.
  - revert output Hinv. induction rs as [|[extract input] rs IH]; intros output Hinv.
    + done.
    + cbn [runs]. apply IH. by apply run_keeps_at_most_one.
  - intros extract parcel_number tmk transfer key st Hkey Hseen.
    apply (known_transfer_is_skipped _ _ _ _ key); [done|].
    unfold seen. rewrite elem_of_union, !elem_of_dom. tauto.
Qed.

(** Three runs on an input that lists one transfer twice, from an absent
    file. *)
Lemma one_record_per_key_witness :
  let rs := [(fixed_tax, Parsed input_one); (fixed_tax, Parsed input_two);
             (no_tax_found, Parsed input_two)] in
  at_most_one (runs rs None) ∧
  (∀ extract parcel_number tmk transfer key st,
     transfer_key parcel_number transfer = Ok key →
     is_Some (existing_transfers st !! key) ∨ is_Some (new_transfers st !! key) →
     process_transfer extract parcel_number tmk transfer st = (Ok tt, st)).
Proof.
  apply (one_record_per_key
           [(fixed_tax, Parsed input_one); (fixed_tax, Parsed input_two);
            (no_tax_found, Parsed input_two)] None).
  intros key. cbn. lia.
Defined.

(** Within one run: the June transfer is listed under two entries of the
    input and written once. *)
Lemma duplicate_in_input_is_written_once :
  out (process_housing_data fixed_tax (Parsed input_two) None) =
    [LBracket; Newline; Object june_record; Comma; Newline; Object july_record;
     Newline; RBracket].
Proof. by vm_compute. Qed.

End Deduplication.

(** ** Running again against a file that holds records *)

Section Rerun.
Import Eff Process Dedup.

Lemma omap_of_some {A B} (f : A → option B) (l : list A) (keys : list B) :
  f <$> l = Some <$> keys → omap f l = keys ∧ length l = length keys.
Proof.
  revert keys. induction l as [|x l IH]; intros [|k keys]; try done.
  cbn. intros [= Hx H]. destruct (IH _ H) as [IH1 IH2].
  unfold omap in *. cbn. by rewrite Hx, IH1, IH2.
Qed.

(** A run against a file it cannot read is the run against no file. *)
Lemma unreadable_is_absent extract input f :
  json_load f = None →
  process_housing_data extract input (Some f) = process_housing_data extract input None.
Proof.
  intros Hload. unfold process_housing_data, body.
  unfold bind at 1 3. unfold load_existing.
  cbn [mbind option_bind]. rewrite Hload.
  reflexivity.
Qed.

(** The run reaches its end when its body returns. *)
Lemma completes_computed extract input output :
  fst (body extract input output (initial output)) = Ok tt →
  completes extract input output.
Proof.
  unfold completes. destruct (body extract input output (initial output)) as [r st].
  cbn [fst]. intros ->. by exists st.
Qed.

(** The body of a run that finds no file: nothing is loaded, the file is
    the opening bracket and what the loop writes, one record for the first
    occurrence of each key it met; these are the keys of the input when the
    body returns. *)
Lemma restart_spec extract input r st :
  body extract input None (initial None) = (r, st) →
  existing_transfers st = ∅ ∧
  ∃ keys written,
    out st = ([LBracket; Newline] ++ written)%list ∧
    record_key <$> records written = Some <$> fresh ∅ keys ∧
    (r = Ok tt → ∃ data, input = Parsed data ∧ input_keys data = Ok keys).
Proof.
  assert (∀ e : pyexn,
    ∃ keys written,
      [LBracket; Newline] = ([LBracket; Newline] ++ written)%list ∧
      record_key <$> records written = Some <$> fresh ∅ keys ∧
      ((Raise e : res unit) = Ok tt →
         ∃ data, input = Parsed data ∧ input_keys data = Ok keys)) as Hstop.
  { intros e. by exists [], []. }
  unfold body. unfold bind at 1.
  change (load_existing None (initial None))
    with (Ok tt, {| out := [LBracket; Newline]; existing_transfers := ∅;
                    new_transfers := ∅; first_item := true; calls := [] |}).
  cbv beta iota. unfold bind at 1.
  destruct input as [| |data]; cbn [read_input lift ret];
    [intros [= <- <-]; split; [done|apply Hstop] ..|].
  unfold bind at 1, gets at 1. unfold bind at 1. cbn [set_first_item modify].
  cbn [out existing_transfers new_transfers first_item calls].
  set (st1 := {| out := [LBracket; Newline]; existing_transfers := ∅;
                 new_transfers := ∅; first_item := _; calls := [] |}).
  unfold bind at 1, lift at 1.
  destruct (iter data) as [taxmapkeys|e] eqn:Eiter;
    [|intros [= <- <-]; split; [done|apply Hstop]].
  unfold bind at 1.
  destruct (for_each taxmapkeys _ st1) as [r2 st2] eqn:Eloop.
  apply taxmapkeys_extend in Eloop as (keys & Hext & _ & Hok2).
  assert (seen st1 = ∅) as Hseen.
  { unfold seen. cbn. set_solver. }
  destruct Hext as (Hex & _ & written & Ho2 & Hkeys). rewrite Hseen in Hkeys.
  cbn [out existing_transfers st1] in Ho2, Hex.
  destruct r2 as [[]|e].
  - intros [= <- <-]. cbn [out existing_transfers]. split; [done|].
    exists keys, (written ++ [Newline; RBracket])%list.
    split; [by rewrite Ho2, <- app_assoc|].
    split; [by rewrite records_app, app_nil_r|].
    intros _. exists data. split; [done|].
    destruct (Hok2 eq_refl) as (keyss & Hkeyss & ->).
    unfold input_keys. by rewrite Eiter; cbn [rbind]; rewrite Hkeyss.
  - intros [= <- <-]. split; [done|]. by exists keys, written.
Qed.

(** C3, as amended. Against an output file that is read back as an array
    of [N] records, a run that ends without an exception rewrites none of
    them: the records of the file after the run are those it held, in their
    order, followed by one new record for the first occurrence in the input
    of each key the file did not hold; [N + M] records when the input holds
    the transfers of the file and [M] others. Against an output file that
    cannot be read back the run is the run against no file: nothing of the
    file is kept. *)
Theorem rerun_appends extract input f :
  (∀ items,
     json_load f = Some (JArr items) →
     completes extract input (Some f) →
     ∃ data keys added,
       input = Parsed data ∧ input_keys data = Ok keys ∧
       length (records f) = length items ∧
       records (out (process_housing_data extract input (Some f))) =
         (records f ++ added)%list ∧
       record_key <$> added = Some <$> fresh (list_to_set (file_keys f)) keys ∧
       (∀ new_keys,
          NoDup new_keys →
          (∀ key, key ∈ keys ↔ key ∈ file_keys f ∨ key ∈ new_keys) →
          (∀ key, key ∈ new_keys → key ∉ file_keys f) →
          (∀ key, key ∈ omap record_key added ↔ key ∈ new_keys) ∧
          length added = length new_keys ∧
          length (records (out (process_housing_data extract input (Some f)))) =
            (length items + length new_keys)%nat)) ∧
  (json_load f = None →
     process_housing_data extract input (Some f) =
     process_housing_data extract input None).
Proof.
  split; [|apply unreadable_is_absent].
  intros items Hload [st Hbody].
  unfold process_housing_data. fold (initial (Some f)). rewrite Hbody.
  apply body_spec in Hbody
    as (keys & known & written & Hout & Hkeys & _ & _ & Hok).
  destruct (Hok eq_refl) as ((data & -> & Hinput) & Hitems & _). clear Hok.
  assert (base (Some f) = f) as Hbase.
  { unfold base. cbn. by rewrite Hload. }
  destruct (Hitems items) as [-> Hlen]; [cbn; by rewrite Hload|].
  rewrite Hbase in *. clear Hitems.
  exists data, keys, (records written).
  split; [done|]. split; [done|]. split; [done|].
  split; [by rewrite Hout, records_app|]. split; [done|].
  intros new_keys Hnodup Hsame Hnew.
  apply omap_of_some in Hkeys as [Homap Hwritten].
  assert (length (records written) = length new_keys) as Hadded.
  { rewrite Hwritten, length_fresh.
    rewrite <- (size_list_to_set (C := gset RecordKey) new_keys Hnodup). f_equal.
    apply set_eq. intros key.
    rewrite elem_of_difference, !elem_of_list_to_set, Hsame. set_solver. }
  split; [|split; [done|]].
  - intros key. rewrite Homap, elem_of_fresh, elem_of_list_to_set, Hsame.
    set_solver.
  - by rewrite Hout, records_app, length_app, Hlen, Hadded.
Qed.

(** The file of a first run, run against again with one transfer more in
    the input; and the file that run leaves, which cannot be read back. *)
Lemma rerun_appends_witness :
  (∃ data keys added,
     Parsed input_two = Parsed data ∧ input_keys data = Ok keys ∧
     length (records first_output) = length [JObj june_record] ∧
     records (out (process_housing_data fixed_tax (Parsed input_two) (Some first_output))) =
       (records first_output ++ added)%list ∧
     record_key <$> added = Some <$> fresh (list_to_set (file_keys first_output)) keys ∧
     (∀ new_keys,
        NoDup new_keys →
        (∀ key, key ∈ keys ↔ key ∈ file_keys first_output ∨ key ∈ new_keys) →
        (∀ key, key ∈ new_keys → key ∉ file_keys first_output) →
        (∀ key, key ∈ omap record_key added ↔ key ∈ new_keys) ∧
        length added = length new_keys ∧
        length (records (out (process_housing_data fixed_tax (Parsed input_two)
                                (Some first_output)))) =
          (length [JObj june_record] + length new_keys)%nat)) ∧
  process_housing_data no_tax_found (Parsed input_two) (Some second_output) =
  process_housing_data no_tax_found (Parsed input_two) None.
Proof.
  split.
  - apply (proj1 (rerun_appends fixed_tax (Parsed input_two) first_output)
             [JObj june_record]).
    + vm_compute. reflexivity.
    + apply completes_computed. vm_compute. reflexivity.
  - apply (proj2 (rerun_appends no_tax_found (Parsed input_two) second_output)).
    vm_compute. reflexivity.
Defined.

(** C3, as stated, fails on a file that holds the records but cannot be
    read back, here the file a second run leaves. It holds the two records
    of the input; the third run starts it anew and writes both records
    again, here with another answer of the extractor: the file after the
    run does not begin with the file before it, and its records are not
    those the file held. *)
Lemma rerun_rewrites_unreadable_file :
  records second_output = [june_record; july_record] ∧
  input_keys input_two = Ok [june_key; july_key; june_key] ∧
  file_keys second_output = [june_key; july_key] ∧
  ¬ (∃ appended,
       out (process_housing_data no_tax_found (Parsed input_two) (Some second_output)) =
         (second_output ++ appended)%list) ∧
  ¬ (∃ added,
       records (out (process_housing_data no_tax_found (Parsed input_two)
                       (Some second_output))) =
         (records second_output ++ added)%list).
Proof.
  split; [by vm_compute|]. split; [by vm_compute|]. split; [by vm_compute|].
  split; intros [x Hx]; vm_compute in Hx; discriminate Hx.
Qed.

(** The file [second_output] is what the second run writes. *)
Lemma second_output_is_written :
  out (process_housing_data fixed_tax (Parsed input_one) None) = first_output ∧
  out (process_housing_data fixed_tax (Parsed input_two) (Some first_output)) =
    second_output ∧
  json_load second_output = None.
Proof. by vm_compute. Qed.

(** X8: a run against an output file that cannot be read back discards
    what the file held. The run is, state for state, the run against no
    file; nothing is loaded into [existing_transfers]; and the file after
    the run is a fresh opening bracket followed by what this run wrote: one
    record for the first occurrence of each key the loop met, the keys of
    the input when the run reaches its end. *)
Theorem unreadable_file_is_restarted extract input f :
  json_load f = None →
  process_housing_data extract input (Some f) =
    process_housing_data extract input None ∧
  existing_transfers (process_housing_data extract input (Some f)) = ∅ ∧
  ∃ keys written,
    out (process_housing_data extract input (Some f)) =
      ([LBracket; Newline] ++ written)%list ∧
    file_keys written = fresh ∅ keys ∧
    length (records written) = length (fresh ∅ keys) ∧
    (completes extract input (Some f) →
       ∃ data, input = Parsed data ∧ input_keys data = Ok keys).
Proof.
  intros Hload. split; [by apply unreadable_is_absent|].
  assert (completes extract input (Some f) → completes extract input None) as Hsame.
  { unfold completes, body. unfold bind at 1 3. unfold load_existing.
    cbn [mbind option_bind]. by rewrite Hload. }
  rewrite (unreadable_is_absent _ _ _ Hload).
  unfold process_housing_data. fold (initial None).
  destruct (body extract input None (initial None)) as [r st] eqn:Hbody.
  destruct (restart_spec _ _ _ _ Hbody) as (Hex & keys & written & Hout & Hkeys & Hok).
  apply omap_of_some in Hkeys as [Homap Hlen].
  assert (∀ tail, records tail = [] →
            ∃ keys' written',
              (out st ++ tail)%list = ([LBracket; Newline] ++ written')%list ∧
              file_keys written' = fresh ∅ keys' ∧
              length (records written') = length (fresh ∅ keys') ∧
              (completes extract input (Some f) →
                 r = Ok tt → ∃ data, input = Parsed data ∧ input_keys data = Ok keys'))
    as Hshape.
  { intros tail Htail. exists keys, (written ++ tail)%list.
    split; [by rewrite Hout, <- app_assoc|].
    unfold file_keys. rewrite records_app, Htail, app_nil_r.
    split; [done|]. split; [done|]. intros _. apply Hok. }
  assert (completes extract input (Some f) → r = Ok tt) as Hr.
  { intros Hc. destruct (Hsame Hc) as [st' Hst']. congruence. }
  destruct r as [[]|e].
  - split; [done|]. destruct (Hshape [] eq_refl) as (k & w & H1 & H2 & H3 & H4).
    rewrite app_nil_r in H1. exists k, w. split; [done|]. split; [done|].
    split; [done|]. intros Hc. by apply H4.
  - assert (∀ st' : state,
        existing_transfers st' = existing_transfers st →
        (∃ tail, out st' = (out st ++ tail)%list ∧ records tail = []) →
        existing_transfers st' = ∅ ∧
        ∃ keys' written',
          out st' = ([LBracket; Newline] ++ written')%list ∧
          file_keys written' = fresh ∅ keys' ∧
          length (records written') = length (fresh ∅ keys') ∧
          (completes extract input (Some f) →
             ∃ data, input = Parsed data ∧ input_keys data = Ok keys')) as Hfin.
    { intros st' -> (tail & -> & Htail). split; [done|].
      destruct (Hshape tail Htail) as (k & w & H1 & H2 & H3 & H4).
      exists k, w. split; [done|]. split; [done|]. split; [done|].
      intros Hc. by specialize (Hr Hc). }
    destruct e; apply Hfin; try done;
      (by exists [Newline; RBracket]) || (exists []; by rewrite app_nil_r).
Qed.

(** X8, at the file a second run left. *)
Lemma unreadable_file_is_restarted_witness :
  process_housing_data no_tax_found (Parsed input_two) (Some second_output) =
    process_housing_data no_tax_found (Parsed input_two) None ∧
  existing_transfers
    (process_housing_data no_tax_found (Parsed input_two) (Some second_output)) = ∅ ∧
  ∃ keys written,
    out (process_housing_data no_tax_found (Parsed input_two) (Some second_output)) =
      ([LBracket; Newline] ++ written)%list ∧
    file_keys written = fresh ∅ keys ∧
    length (records written) = length (fresh ∅ keys) ∧
    (completes no_tax_found (Parsed input_two) (Some second_output) →
       ∃ data, Parsed input_two = Parsed data ∧ input_keys data = Ok keys).
Proof.
  apply (unreadable_file_is_restarted no_tax_found (Parsed input_two) second_output).
  vm_compute. reflexivity.
Defined.

End Rerun.

(** ** The framing of the output file *)

Section Framing.
Import Eff.

(** C2, at the failing inputs. (1) The enrichment step run twice on the
    empty input, from an absent file: the first run leaves an empty array,
    the second appends a second closing bracket after it, and the file is
    no longer an array. (2) The same on an input with records: the second
    run appends the separator and the new record after the closing bracket.
    (3) The fetch script on a server without results, ending normally: each
    of the two calls of [fetch_results] closes the array. (4) The enrichment
    step on an input file that is not JSON, from an absent file: the bracket
    is opened and never closed. *)
Theorem array_framing_is_broken :
  (Process.runs [(fixed_tax, Parsed (JArr [])); (fixed_tax, Parsed (JArr []))] None =
     Some [LBracket; Newline; Newline; RBracket; Newline; RBracket] ∧
   json_load [LBracket; Newline; Newline; RBracket] = Some (JArr []) ∧
   json_load [LBracket; Newline; Newline; RBracket; Newline; RBracket] = None) ∧
  (Process.runs [(fixed_tax, Parsed input_one); (fixed_tax, Parsed input_two)] None =
     Some second_output ∧
   json_load second_output = None) ∧
  (Fetch.out (Fetch.main no_results no_results) =
     [LBracket; Newline; RBracket; Newline; RBracket; Newline] ∧
   json_load (Fetch.out (Fetch.main no_results no_results)) = None) ∧
  (Process.runs [(fixed_tax, Malformed)] None = Some [LBracket; Newline] ∧
   json_load [LBracket; Newline] = None).
Proof. by vm_compute. Qed.

(** In the fetch script the last result of the first range is written
    without a separator and the results of the second range follow the
    closing bracket. *)
Lemma fetch_ranges_are_not_one_array :
  let server number := fun _ _ : Z =>
    Fetch.Payload (JObj [("data", JArr [parcel number])]) in
  Fetch.out (Fetch.fetch_both (server "1230040050000") (server "1230040060000")
               1000 1000 1000) =
    [LBracket; Newline; Object (extracted "1230040050000"); Newline; RBracket; Newline;
     Object (extracted "1230040060000"); Newline; RBracket; Newline].
Proof. by vm_compute. Qed.

(** A failed last batch leaves a separator before the closing bracket. *)
Lemma failed_last_batch_leaves_separator :
  let server := fun offset _ : Z =>
    if offset =? 0 then Fetch.Payload (JObj [("data", JArr [parcel "1230040050000"])])
    else Fetch.Failed "502 Server Error" None in
  Fetch.out (snd (Fetch.fetch_results true server 0 2000 1000 (Fetch.init true))) =
    [LBracket; Newline; Object (extracted "1230040050000"); Comma; Newline;
     ErrorLine (RequestError 1000 "502 Server Error"); RBracket; Newline].
Proof. by vm_compute. Qed.

End Framing.

(** ** A second run leaves the file unreadable *)

Section Closing.
Import Eff Process Dedup.

Variable extract : nat → json → string.

Lemma plain_rbind {A B} (m : res A) (k : A → res B) :
  plain m → (∀ a, plain (k a)) → plain (rbind m k).
Proof.
  intros Hm Hk. destruct m as [a|e]; cbn [rbind]; [apply Hk|].
  intros [= ->]. by apply Hm.
Qed.

Lemma plain_get d k dflt : plain (get d k dflt).
Proof. by destruct d. Qed.

Lemma plain_iter v : plain (iter v).
Proof. by destruct v. Qed.

Lemma plain_hash v : plain (hash v).
Proof. by destruct v. Qed.

Lemma plain_hash_key a b c d : plain (hash_key a b c d).
Proof.
  unfold hash_key.
  repeat (apply plain_rbind; [apply plain_hash | intros ?]). done.
Qed.

Lemma plain_int s : plain (int s).
Proof. unfold int. by destruct (_ && _). Qed.

Lemma plain_convert_to_tmk_format v : plain (convert_to_tmk_format v).
Proof.
  unfold convert_to_tmk_format.
  apply plain_rbind; [by destruct v | intros n].
  destruct (negb _); [done|]. destruct v; try done.
  destruct (negb _); [done|].
  repeat (apply plain_rbind; [apply plain_int | intros ?]). done.
Qed.

Lemma plain_item_key item : plain (item_key item).
Proof.
  unfold item_key.
  repeat (apply plain_rbind; [apply plain_get | intros ?]). apply plain_hash_key.
Qed.

Lemma plainM_ret {A} (a : A) : plainM (ret a).
Proof. by intros st r st' [= <- <-]. Qed.

Lemma plainM_lift {A} (x : res A) : plain x → plainM (lift x).
Proof. by intros Hx st r st' [= <- <-]. Qed.

Lemma plainM_modify f : plainM (modify f).
Proof. by intros st r st' [= <- <-]. Qed.

Lemma plainM_gets {A} (f : state → A) : plainM (gets f).
Proof. by intros st r st' [= <- <-]. Qed.

Lemma plainM_bind {A B} (m : M state A) (k : A → M state B) :
  plainM m → (∀ a, plainM (k a)) → plainM (bind m k).
Proof.
  intros Hm Hk st r st'. unfold bind.
  destruct (m st) as [[a|e] st1] eqn:E1.
  - apply Hk.
  - intros [= <- <-]. intros [= ->]. by apply (Hm _ _ _ E1).
Qed.

Lemma plainM_for_each {A} (l : list A) (f : A → M state unit) :
  (∀ x, plainM (f x)) → plainM (for_each l f).
Proof.
  intros Hf. induction l as [|x l IH]; cbn [for_each].
  - apply plainM_ret.
  - apply plainM_bind; [apply Hf | by intros _].
Qed.

Lemma plainM_process_transfer parcel_number tmk transfer :
  plainM (process_transfer extract parcel_number tmk transfer).
Proof.
  unfold process_transfer.
  repeat (apply plainM_bind; [apply plainM_lift, plain_get | intros ?]).
  apply plainM_bind; [apply plainM_lift, plain_hash_key | intros key].
  apply plainM_bind; [apply plainM_gets | intros existing].
  destruct (bool_decide _); [apply plainM_ret|].
  apply plainM_bind; [apply plainM_gets | intros new].
  destruct (bool_decide _); [apply plainM_ret|].
  apply plainM_bind.
  - destruct (truthy _); [|apply plainM_ret].
    apply plainM_bind; [apply plainM_gets | intros n].
    apply plainM_bind; [apply plainM_modify | intros _; apply plainM_ret].
  - intros tax.
    apply plainM_bind; [apply plainM_modify | intros _].
    apply plainM_bind; [apply plainM_gets | intros first].
    apply plainM_bind; [apply plainM_modify | intros _; apply plainM_modify].
Qed.

Lemma plainM_process_taxmapkey taxmapkey :
  plainM (process_taxmapkey extract taxmapkey).
Proof.
  unfold process_taxmapkey.
  apply plainM_bind; [apply plainM_lift, plain_get | intros parcel_number].
  apply plainM_bind; [apply plainM_lift, plain_convert_to_tmk_format | intros tmk].
  apply plainM_bind; [apply plainM_lift, plain_get | intros transfers_value].
  apply plainM_bind; [apply plainM_lift, plain_iter | intros transfers].
  apply plainM_for_each. intros transfer. apply plainM_process_transfer.
Qed.

Lemma plainM_load_existing output : plainM (load_existing output).
Proof.
  unfold load_existing. destruct (output ≫= json_load); [|apply plainM_modify].
  apply plainM_bind; [apply plainM_lift, plain_iter | intros items].
  apply plainM_for_each. intros item.
  apply plainM_bind; [apply plainM_lift, plain_item_key | intros key].
  apply plainM_modify.
Qed.

(** Only an input file that is not JSON makes the body raise
    [JSONDecodeError]. *)
Lemma body_decode_error input output st st' :
  body extract input output st = (Raise JSONDecodeError, st') → input = Malformed.
Proof.
  destruct input as [| |data]; [|done|]; intros H; exfalso; revert H.
  - unfold body. unfold bind at 1.
    destruct (load_existing output st) as [[[]|e] st1] eqn:E; [done|].
    intros [= -> _]. by apply plainM_load_existing in E.
  - assert (plainM (body extract (Parsed data) output)) as Hplain; [|by intros ?%Hplain].
    unfold body.
    apply plainM_bind; [apply plainM_load_existing | intros _].
    apply plainM_bind; [apply plainM_ret | intros data'].
    apply plainM_bind; [apply plainM_gets | intros existing].
    apply plainM_bind; [apply plainM_modify | intros _].
    apply plainM_bind; [apply plainM_lift, plain_iter | intros taxmapkeys].
    apply plainM_bind; [|intros _; apply plainM_modify].
    apply plainM_for_each. intros taxmapkey. apply plainM_process_taxmapkey.
Qed.

(** Whatever the input (if it is JSON) and whatever was written, a run
    against a file that could be read back as a value leaves a file that
    cannot: the closing bracket of the run follows the value. *)
Lemma rerun_breaks_array input f v :
  json_load f = Some v → input ≠ Malformed →
  json_load (out (process_housing_data extract input (Some f))) = None.
Proof.
  intros Hload Hinput.
  assert (∃ before, out (process_housing_data extract input (Some f)) =
                    (f ++ before ++ [Newline; RBracket])%list) as [before ->].
  { unfold process_housing_data. fold (initial (Some f)).
    destruct (body extract input (Some f) (initial (Some f))) as [[[]|e] st] eqn:E.
    - apply body_spec in E as (keys & known & written & Hout & _ & _ & _ & Hok).
      destruct (Hok eq_refl) as (_ & _ & before & ->).
      unfold base in Hout. cbn [mbind option_bind] in Hout. rewrite Hload in Hout.
      by exists before.
    - assert (e ≠ JSONDecodeError) as He.
      { intros ->. by apply body_decode_error in E. }
      apply body_spec in E as (keys & known & written & Hout & _).
      unfold base in Hout. cbn [mbind option_bind] in Hout. rewrite Hload in Hout.
      exists written. destruct e; try done; cbn; by rewrite Hout, <- app_assoc. }
  apply (json_load_extra _ v); [done|].
  rewrite List.filter_app. cbn. by destruct (List.filter _ before).
Qed.

End Closing.

(** * Properties of the rest of the code *)

(** ** The cells of the export *)

Section Cells.
Import Csv Coverage.

Lemma remove_commas_no_comma s :
  ¬ In ","%char (list_ascii_of_string (remove_commas s)).
Proof.
  induction s as [|c s IH]; cbn [remove_commas]; [by intros []|].
  destruct (Ascii.eqb c ",") eqn:E; [done|].
  cbn [list_ascii_of_string]. intros [->|Hin]; [|done].
  by rewrite Ascii.eqb_refl in E.
Qed.

Lemma remove_commas_id s :
  ¬ In ","%char (list_ascii_of_string s) → remove_commas s = s.
Proof.
  induction s as [|c s IH]; [done|]. cbn [list_ascii_of_string remove_commas].
  intros Hnot. destruct (Ascii.eqb c ",") eqn:E.
  - apply Ascii.eqb_eq in E as ->. destruct Hnot. by left.
  - f_equal. apply IH. intros Hin. apply Hnot. by right.
Qed.

(** X1: whatever the ConveyanceTax of a record is (any JSON value), the cell
    written for it is the word ERROR or a string that [float] accepts; it
    holds no comma, and cleaning it again gives it back. *)
Theorem tax_cell_is_clean (v : json) :
  (clean_conveyance_tax v = "ERROR" ∨ float_ok (clean_conveyance_tax v) = true) ∧
  ¬ In ","%char (list_ascii_of_string (clean_conveyance_tax v)) ∧
  clean_conveyance_tax (JStr (clean_conveyance_tax v)) = clean_conveyance_tax v.
Proof.
  assert (clean_conveyance_tax v = "ERROR" ∨
          ∃ s, float_ok (remove_commas s) = true ∧
               clean_conveyance_tax v = remove_commas s) as [->|(s & Hs & ->)].
  { unfold clean_conveyance_tax. destruct (negb _); [|by left].
    destruct v as [| | |s| |]; try by left.
    destruct (float_ok (remove_commas s)) eqn:E; [right; by exists s | by left]. }
  - split; [by left|]. split; [|done].
    cbn. intros H. repeat (destruct H as [H|H]; [discriminate H|]). done.
  - split; [by right|]. split; [apply remove_commas_no_comma|].
    rewrite clean_numeric; rewrite (remove_commas_id _ (remove_commas_no_comma s)); done.
Qed.

(** X2: the export stops at the first item that is not a record: the rows
    of the records before it are written, nothing of what follows it. *)
Theorem export_stops_at_bad_item
    (before : list (list (string * json))) (bad : json) (after : list json) :
  (∀ fields, bad ≠ JObj fields) →
  convert_to_csv (Parsed (JArr (map JObj before ++ bad :: after))) =
    Some (header :: map row_of before).
Proof.
  intros Hbad. unfold convert_to_csv. cbn [iter]. do 2 f_equal.
  induction before as [|fields before IH]; cbn [map app rows].
  - destruct bad; try done. by destruct (Hbad kvs).
  - unfold row at 1. cbn [get rbind]. by rewrite IH.
Qed.

Lemma export_stops_at_bad_item_witness :
  convert_to_csv (Parsed (JArr (map JObj [june_record] ++ JNull :: [JObj july_record]))) =
    Some (header :: map row_of [june_record]).
Proof. by apply (export_stops_at_bad_item [june_record] JNull [JObj july_record]). Defined.

End Cells.

(** ** The amount the extractor reads *)

Section Amounts.
Import Csv Extractor Coverage.

Lemma span_spec p l :
  l = (fst (span p l) ++ snd (span p l))%list ∧
  Forall (fun c => p c = true) (fst (span p l)) ∧
  match snd (span p l) with
  | c :: _ => p c = false
  | [] => True
  end.
Proof.
  induction l as [|c l (IH1 & IH2 & IH3)]; cbn [span]; [by repeat split|].
  destruct (p c) eqn:E; cbn [fst snd app].
  - split; [by f_equal|]. split; [by constructor|done].
  - by repeat split.
Qed.

(** What the group matches: digits and commas, at least one of them, then
    possibly a point and digits. *)
Lemma group_shape l g :
  group l = Some g →
  ∃ head rest,
    g = (head ++ rest)%list ∧ head ≠ [] ∧
    Forall (fun c => is_digit_or_comma c = true) head ∧
    (rest = [] ∨ ∃ tail, rest = "."%char :: tail ∧
                         Forall (fun c => is_ascii_digit c = true) tail).
Proof.
  unfold group.
  destruct (span_spec is_digit_or_comma l) as (_ & Hhead & _).
  destruct (fst (span is_digit_or_comma l)) as [|c head] eqn:E; [done|].
  destruct (snd (span is_digit_or_comma l)) as [|d r].
  - intros [= <-]. exists (c :: head), []. rewrite app_nil_r. by auto.
  - destruct (Ascii.eqb d ".") eqn:Ed.
    + apply Ascii.eqb_eq in Ed as ->. intros [= <-].
      exists (c :: head), ("."%char :: fst (span is_ascii_digit r)).
      split; [done|]. split; [done|]. split; [done|]. right.
      eexists. split; [done|]. by destruct (span_spec is_ascii_digit r) as (_ & ? & _).
    + intros [= <-]. exists (c :: head), []. rewrite app_nil_r. by auto.
Qed.

Lemma search_shape l g :
  search l = Some g → ∃ l', group l' = Some g.
Proof.
  induction l as [|c l IH]; cbn [search].
  - unfold match_here. destruct (after_literal _ _) as [r|]; [|done].
    destruct (group _) eqn:E; [|done]. intros [= <-]. eauto.
  - unfold match_here. destruct (after_literal _ _) as [r|]; [|exact IH].
    destruct (group _) eqn:E; [|exact IH]. intros [= <-]. eauto.
Qed.

Lemma digit_facts c :
  is_ascii_digit c = true →
  is_space c = false ∧ is_underscore c = false ∧ Ascii.eqb c "," = false ∧
  Ascii.eqb c "." = false ∧ Ascii.eqb c "+" = false ∧ Ascii.eqb c "-" = false.
Proof.
  destruct c as [[] [] [] [] [] [] [] []]; vm_compute; intros; try discriminate;
    repeat split.
Qed.

Lemma lstrip_id l :
  match l with c :: _ => is_space c = false | [] => True end → lstrip l = l.
Proof. destruct l as [|c l]; [done|]. cbn. by intros ->. Qed.

(** Nothing is stripped from a string without white space. *)
Lemma strip_id l : Forall (fun c => is_space c = false) l → strip l = l.
Proof.
  intros Hl. unfold strip. rewrite (lstrip_id l) by (by destruct Hl).
  rewrite lstrip_id; [apply rev_involutive|].
  destruct (rev l) as [|c r] eqn:E; [done|].
  rewrite List.Forall_forall in Hl. apply Hl.
  apply in_rev. rewrite E. by left.
Qed.

Lemma underscores_ok_none prev l :
  Forall (fun c => is_underscore c = false) l → underscores_ok prev false l = true.
Proof.
  intros Hl. revert prev. induction Hl as [|c l Hc _ IH]; intros prev; [done|].
  cbn [underscores_ok]. rewrite Hc. cbn. apply IH.
Qed.

Lemma filter_underscores_none l :
  Forall (fun c => is_underscore c = false) l →
  List.filter (fun c => negb (is_underscore c)) l = l.
Proof.
  induction 1 as [|c l Hc _ IH]; [done|]. cbn. by rewrite Hc, IH.
Qed.

Lemma span_digits_app whole rest :
  Forall (fun c => is_ascii_digit c = true) whole →
  match rest with c :: _ => is_ascii_digit c = false | [] => True end →
  span_digits (whole ++ rest) = (length whole, rest).
Proof.
  intros Hw Hrest. induction Hw as [|c whole Hc _ IH]; cbn [app length].
  - destruct rest as [|c rest]; [done|]. cbn [span_digits]. by rewrite Hrest.
  - cbn [span_digits]. by rewrite Hc, IH.
Qed.

(** [float] reads digits with at most one point exactly when there is a
    digit. *)
Lemma float_ok_digits whole rest fraction :
  Forall (fun c => is_ascii_digit c = true) whole →
  Forall (fun c => is_ascii_digit c = true) fraction →
  rest = [] ∧ fraction = [] ∨ rest = "."%char :: fraction →
  float_ok (string_of_list_ascii (whole ++ rest)) =
    negb (length whole + length fraction =? 0)%nat.
Proof.
  intros Hw Hf Hrest. unfold float_ok.
  rewrite list_ascii_of_string_of_list_ascii.
  assert (Forall (fun c => is_space c = false ∧ is_underscore c = false) (whole ++ rest))
    as Hall.
  { apply Forall_app. split.
    - eapply List.Forall_impl; [|exact Hw]. intros c Hc. cbn beta.
      by destruct (digit_facts c Hc) as (? & ? & _).
    - destruct Hrest as [ [-> _] | -> ]; [done|]. constructor; [done|].
      eapply List.Forall_impl; [|exact Hf]. intros c Hc. cbn beta.
      by destruct (digit_facts c Hc) as (? & ? & _). }
  rewrite strip_id by (eapply List.Forall_impl; [|exact Hall]; by intros c [? ?]).
  rewrite underscores_ok_none
    by (eapply List.Forall_impl; [|exact Hall]; by intros c [? ?]).
  rewrite filter_underscores_none
    by (eapply List.Forall_impl; [|exact Hall]; by intros c [? ?]).
  cbn [andb]. clear Hall.
  assert (drop_sign (whole ++ rest) = (whole ++ rest)%list) as Hsign.
  { destruct Hw as [|c whole Hc _].
    - by destruct Hrest as [ [-> _] | -> ].
    - cbn [app drop_sign]. by destruct (digit_facts c Hc) as (_ & _ & _ & _ & -> & ->). }
  unfold decimal_literal, inf_or_nan. rewrite !Hsign.
  rewrite span_digits_app by (done || by destruct Hrest as [ [-> _] | -> ]).
  cbn [fst snd].
  destruct Hrest as [ [-> ->] | -> ].
  - cbn [length]. destruct whole as [|c whole]; [by vm_compute|]. by cbn.
  - change (Ascii.eqb "." ".") with true. cbv iota.
    replace fraction with (fraction ++ [])%list at 1 2 by apply app_nil_r.
    rewrite span_digits_app by done. cbn [fst snd].
    destruct (length whole + length fraction =? 0)%nat eqn:E; cbn [negb andb orb].
    + apply Nat.eqb_eq in E.
      destruct whole; [|cbn in E; lia]. destruct fraction; [|cbn in E; lia].
      by vm_compute.
    + done.
Qed.

Lemma remove_commas_list l :
  remove_commas (string_of_list_ascii l) =
    string_of_list_ascii (List.filter (fun c => negb (Ascii.eqb c ",")) l).
Proof.
  induction l as [|c l IH]; [done|]. cbn [string_of_list_ascii remove_commas List.filter].
  destruct (Ascii.eqb c ","); cbn [negb string_of_list_ascii]; by rewrite IH.
Qed.

Lemma commas_out_of_head head :
  Forall (fun c => is_digit_or_comma c = true) head →
  Forall (fun c => is_ascii_digit c = true)
    (List.filter (fun c => negb (Ascii.eqb c ",")) head).
Proof.
  induction 1 as [|c head Hc _ IH]; [done|]. cbn [List.filter].
  destruct (Ascii.eqb c ",") eqn:E; cbn [negb]; [done|]. constructor; [|done].
  unfold is_digit_or_comma in Hc. rewrite E in Hc. by rewrite orb_false_r in Hc.
Qed.

Lemma no_commas_in_digits tail :
  Forall (fun c => is_ascii_digit c = true) tail →
  List.filter (fun c => negb (Ascii.eqb c ",")) tail = tail.
Proof.
  induction 1 as [|c tail Hc _ IH]; [done|]. cbn [List.filter].
  destruct (digit_facts c Hc) as (_ & _ & -> & _). cbn [negb]. by rewrite IH.
Qed.

(** X3: what the extractor returns for a text is "Not found" or the amount
    the expression matched: digits and commas, at least one, then possibly
    a point and digits. *)
Theorem extracted_tax_shape (text : string) :
  extract_conveyance_tax (Text text) = "Not found" ∨
  ∃ head rest,
    extract_conveyance_tax (Text text) = string_of_list_ascii (head ++ rest) ∧
    head ≠ [] ∧
    Forall (fun c => is_digit_or_comma c = true) head ∧
    (rest = [] ∨ ∃ tail, rest = "."%char :: tail ∧
                         Forall (fun c => is_ascii_digit c = true) tail).
Proof.
  unfold extract_conveyance_tax.
  destruct (search _) as [g|] eqn:E; [|by left]. right.
  apply search_shape in E as [l' E].
  apply group_shape in E as (head & rest & -> & ? & ? & ?). by exists head, rest.
Qed.

(** X4: whatever the document gave (an error, a text without the amount,
    a text with it), the cell the export writes for the extractor's answer
    is ERROR or a plain decimal number: the answer without its commas, made
    of digits with at most one point. *)
Theorem extracted_tax_exports (r : reading) :
  clean_conveyance_tax (JStr (extract_conveyance_tax r)) = "ERROR" ∨
  (plain_decimal (clean_conveyance_tax (JStr (extract_conveyance_tax r))) ∧
   clean_conveyance_tax (JStr (extract_conveyance_tax r)) =
     remove_commas (extract_conveyance_tax r)).
Proof.
  destruct r as [e|text]; [left; apply clean_access_error|].
  unfold extract_conveyance_tax.
  destruct (search _) as [g|] eqn:E; [|by left].
  apply search_shape in E as [l' E].
  apply group_shape in E as (head & rest & -> & Hne & Hhead & Hrest).
  set (whole := List.filter (fun c => negb (Ascii.eqb c ",")) head).
  assert (∃ fraction,
            Forall (fun c => is_ascii_digit c = true) fraction ∧
            (rest = [] ∧ fraction = [] ∨ rest = "."%char :: fraction))
    as (fraction & Hf & Hshape).
  { destruct Hrest as [->|(tail & -> & Htail)]; [exists []|exists tail]; auto. }
  assert (remove_commas (string_of_list_ascii (head ++ rest)) =
          string_of_list_ascii (whole ++ rest)) as Hclean.
  { rewrite remove_commas_list, List.filter_app. fold whole. do 2 f_equal.
    destruct Hshape as [ [-> _] | -> ]; [done|].
    cbn [List.filter]. change (negb (Ascii.eqb "." ",")) with true. cbv iota.
    by rewrite no_commas_in_digits. }
  pose proof (float_ok_digits whole rest fraction
                (commas_out_of_head head Hhead) Hf Hshape) as Hfloat.
  destruct (length whole + length fraction =? 0)%nat eqn:Elen; cbn [negb] in Hfloat.
  - left. apply clean_not_numeric. intros (s & [= <-] & Hnum). congruence.
  - right. rewrite clean_numeric by (by rewrite Hclean). split; [|done].
    rewrite Hclean. exists whole, fraction.
    split; [by apply commas_out_of_head|]. split; [done|]. split.
    + intros Hnil. apply (f_equal length) in Hnil. rewrite length_app in Hnil.
      apply Nat.eqb_neq in Elen. cbn in Hnil. lia.
    + destruct Hshape as [ [-> ->] | -> ]; [left|right]; done.
Qed.

End Amounts.

(** ** The client's address and credentials *)

Section Address.
Import Client.

Lemma is_prefix_app p s : is_prefix p (p +:+ s) = true.
Proof.
  induction p as [|c p IH]; [done|].
  change (String c p +:+ s) with (String c (p +:+ s)). cbn [is_prefix].
  by rewrite Ascii.eqb_refl, IH.
Qed.

(** X5: the Authorization header always begins with the scheme "Bearer ";
    a token that already carries it is sent as it is, so that preparing a
    prepared token changes nothing, and any other token gets the scheme put
    before it. *)
Theorem auth_header_scheme (bearer_token : string) :
  is_prefix "Bearer " (auth_header bearer_token) = true ∧
  auth_header (auth_header bearer_token) = auth_header bearer_token ∧
  (is_prefix "Bearer " bearer_token = true → auth_header bearer_token = bearer_token) ∧
  (is_prefix "Bearer " bearer_token = false →
   auth_header bearer_token = "Bearer " +:+ bearer_token).
Proof.
  assert (is_prefix "Bearer " (auth_header bearer_token) = true) as Hp.
  { unfold auth_header. destruct (is_prefix "Bearer " bearer_token) eqn:E; [done|].
    apply (is_prefix_app "Bearer "). }
  split; [done|]. split; [|split].
  - unfold auth_header at 1. by rewrite Hp.
  - intros H. unfold auth_header. by rewrite H.
  - intros H. unfold auth_header. by rewrite H.
Qed.

Lemma lstrip_slash_spec l :
  (∃ k, l = (repeat "/"%char k ++ lstrip_slash l)%list) ∧
  head (lstrip_slash l) ≠ Some "/"%char.
Proof.
  induction l as [|c l [[k IH1] IH2]]; cbn [lstrip_slash].
  - split; [by exists 0%nat|done].
  - destruct (Ascii.eqb c "/") eqn:E.
    + apply Ascii.eqb_eq in E as ->. split; [|done].
      exists (S k). cbn [repeat app]. by f_equal.
    + split; [by exists 0%nat|]. cbn. intros [= ->]. by rewrite Ascii.eqb_refl in E.
Qed.

Lemma lstrip_slash_repeat k l :
  lstrip_slash (repeat "/"%char k ++ l) = lstrip_slash l.
Proof. induction k as [|k IH]; [done|]. cbn. exact IH. Qed.

Lemma rev_repeat_slash k : rev (repeat "/"%char k) = repeat "/"%char k.
Proof.
  induction k as [|k IH]; [done|]. cbn [repeat rev]. rewrite IH. clear IH.
  induction k as [|k IH]; [done|]. cbn [repeat app]. by rewrite IH.
Qed.

Lemma rstrip_slash_spec l :
  (∃ k, l = (rstrip_slash l ++ repeat "/"%char k)%list) ∧
  head (rev (rstrip_slash l)) ≠ Some "/"%char.
Proof.
  unfold rstrip_slash. destruct (lstrip_slash_spec (rev l)) as [[k H1] H2]. split.
  - exists k. apply (f_equal (@rev ascii)) in H1.
    by rewrite rev_involutive, rev_app_distr, rev_repeat_slash in H1.
  - by rewrite rev_involutive.
Qed.

Lemma list_of_append s1 s2 :
  list_ascii_of_string (s1 +:+ s2) =
    (list_ascii_of_string s1 ++ list_ascii_of_string s2)%list.
Proof.
  induction s1 as [|c s1 IH]; [done|].
  change (String c s1 +:+ s2) with (String c (s1 +:+ s2)).
  cbn [list_ascii_of_string app]. by rewrite IH.
Qed.

(** X6: the address of a request is the base address without the slashes
    at its end, one slash, and the endpoint without the slashes at its
    start: whatever slashes the two carry where they meet, exactly one
    stands there, and adding slashes there does not change the address. *)
Theorem url_has_one_slash (base endpoint : string) :
  let b := rstrip_slash (list_ascii_of_string base) in
  let e := lstrip_slash (list_ascii_of_string endpoint) in
  list_ascii_of_string (url base endpoint) = (b ++ "/"%char :: e)%list ∧
  head (rev b) ≠ Some "/"%char ∧ head e ≠ Some "/"%char ∧
  (∃ k, list_ascii_of_string base = (b ++ repeat "/"%char k)%list) ∧
  (∃ k, list_ascii_of_string endpoint = (repeat "/"%char k ++ e)%list) ∧
  url (base +:+ "/") endpoint = url base endpoint ∧
  url base ("/" +:+ endpoint) = url base endpoint.
Proof.
  intros b e.
  destruct (rstrip_slash_spec (list_ascii_of_string base)) as [Hb1 Hb2].
  destruct (lstrip_slash_spec (list_ascii_of_string endpoint)) as [He1 He2].
  split; [|split; [done|split; [done|split; [done|split; [done|split]]]]].
  - unfold url, base_url. rewrite !list_of_append.
    by rewrite !list_ascii_of_string_of_list_ascii.
  - unfold url, base_url, rstrip_slash. rewrite list_of_append.
    cbn [list_ascii_of_string]. rewrite rev_app_distr. by cbn.
  - done.
Qed.

End Address.

(** ** Instances *)

Section Instances.
Import Process Dedup.

(** X7, at the file of a first run: run against again, it can no longer be
    read back. *)
Lemma rerun_breaks_array_witness :
  json_load (out (process_housing_data fixed_tax (Parsed input_two) (Some first_output)))
    = None.
Proof.
  apply (rerun_breaks_array fixed_tax (Parsed input_two) first_output
           (JArr [JObj june_record])).
  - by vm_compute.
  - discriminate.
Defined.

(** X9, at a parcel number without a condominium number. *)
Lemma tmk_decimal_witness :
  convert_to_tmk_format (JStr "1230040050000") = Ok (JStr "1-2-3-4-5").
Proof.
  rewrite (tmk_decimal "1230040050000"); [by vm_compute | reflexivity | reflexivity].
Defined.

End Instances.

(** ** What a third run finds *)

Section ThirdRun.
Import Eff Process Dedup.

(** The file after a run against a readable file: the file, what the run
    wrote, and the closing bracket. *)
Lemma run_closes_after_value extract input f v :
  json_load f = Some v → input ≠ Malformed →
  ∃ before, out (process_housing_data extract input (Some f)) =
            (f ++ before ++ [Newline; RBracket])%list.
Proof.
  intros Hload Hinput. unfold process_housing_data. fold (initial (Some f)).
  destruct (body extract input (Some f) (initial (Some f))) as [[[]|e] st] eqn:E.
  - apply body_spec in E as (keys & known & written & Hout & _ & _ & _ & Hok).
    destruct (Hok eq_refl) as (_ & _ & before & ->).
    unfold base in Hout. cbn [mbind option_bind] in Hout. rewrite Hload in Hout.
    by exists before.
  - assert (e ≠ JSONDecodeError) as He.
    { intros ->. by apply body_decode_error in E. }
    apply body_spec in E as (keys & known & written & Hout & _).
    unfold base in Hout. cbn [mbind option_bind] in Hout. rewrite Hload in Hout.
    exists written. destruct e; try done; cbn; by rewrite Hout, <- app_assoc.
Qed.

(** X10: two runs in a row against a readable output file end as one run
    against no file at all: the first run leaves the file unreadable, and
    the second starts it anew from its own input, so the records the file
    held and those the first run added are gone unless the second input has
    them. *)
Theorem second_rerun_forgets extract1 input1 extract2 input2 f v :
  json_load f = Some v → input1 ≠ Malformed →
  runs [(extract1, input1); (extract2, input2)] (Some f) =
  runs [(extract2, input2)] None.
Proof.
  intros Hload Hinput. cbn [runs]. do 2 f_equal.
  apply unreadable_is_absent.
  destruct (run_closes_after_value extract1 input1 f v Hload Hinput) as [before ->].
  apply (json_load_extra _ v); [done|].
  rewrite List.filter_app. cbn. by destruct (List.filter _ before).
Qed.

Lemma second_rerun_forgets_witness :
  runs [(fixed_tax, Parsed input_two); (no_tax_found, Parsed (JArr []))] (Some first_output) =
  runs [(no_tax_found, Parsed (JArr []))] None.
Proof.
  apply (second_rerun_forgets fixed_tax (Parsed input_two) no_tax_found (Parsed (JArr []))
           first_output (JArr [JObj june_record])).
  - by vm_compute.
  - discriminate.
Defined.

End ThirdRun.
